(** * Trade-bot: signal detection and alert de-duplication

    A shallow embedding of [telegram_bot.py] (classes [TelegramBot] and
    [BinanceTelegramAlert]) together with the properties of its
    indicator calculator, setup evaluator, risk planner and alert cache.

    Numbers.  The program computes on IEEE-754 doubles held in pandas
    columns.  Here every finite value is an exact rational ([Q]); the
    special values that pandas produces instead of raising (division by
    zero gives an infinity or NaN, the first [diff] and the first rolling
    windows are NaN) are kept as constructors of [float].  Rounding of
    finite results is not modelled, and zero carries no sign. *)

From Stdlib Require Import QArith Qabs Qminmax Lqa Lia ZArith.
From stdpp Require Import gmap strings list.

Local Open Scope Q_scope.

(** ** Floating-point values *)

Inductive float : Type :=
| Fin (q : Q)
| PInf
| NInf
| NaN.

Definition Qlt_bool (x y : Q) : bool := negb (Qle_bool y x).

Definition fneg (x : float) : float :=
  match x with
  | Fin a => Fin (- a)
  | PInf => NInf
  | NInf => PInf
  | NaN => NaN
  end.

Definition fabs (x : float) : float :=
  match x with
  | Fin a => Fin (Qabs a)
  | PInf | NInf => PInf
  | NaN => NaN
  end.

Definition fadd (x y : float) : float :=
  match x, y with
  | NaN, _ | _, NaN => NaN
  | Fin a, Fin b => Fin (a + b)
  | PInf, NInf | NInf, PInf => NaN
  | PInf, _ | _, PInf => PInf
  | NInf, _ | _, NInf => NInf
  end.

Definition fsub (x y : float) : float := fadd x (fneg y).

(** The infinity with the sign of [a] (zero counts as positive). *)
Definition inf_of_sign (a : Q) : float :=
  if Qlt_bool a 0 then NInf else PInf.

Definition fmul (x y : float) : float :=
  match x, y with
  | NaN, _ | _, NaN => NaN
  | Fin a, Fin b => Fin (a * b)
  | Fin a, PInf | PInf, Fin a =>
      if Qeq_bool a 0 then NaN else inf_of_sign a
  | Fin a, NInf | NInf, Fin a =>
      if Qeq_bool a 0 then NaN else fneg (inf_of_sign a)
  | PInf, PInf | NInf, NInf => PInf
  | PInf, NInf | NInf, PInf => NInf
  end.

(** Division as numpy performs it: no exception, [x / 0] is an infinity
    with the sign of [x], and [0 / 0] is NaN. *)
Definition fdiv (x y : float) : float :=
  match x, y with
  | NaN, _ | _, NaN => NaN
  | Fin a, Fin b =>
      if Qeq_bool b 0
      then (if Qeq_bool a 0 then NaN else inf_of_sign a)
      else Fin (a / b)
  | Fin _, (PInf | NInf) => Fin 0
  | PInf, Fin b => inf_of_sign b
  | NInf, Fin b => fneg (inf_of_sign b)
  | (PInf | NInf), (PInf | NInf) => NaN
  end.

(** Comparisons: any comparison with NaN is false. *)
Definition flt (x y : float) : bool :=
  match x, y with
  | NaN, _ | _, NaN => false
  | Fin a, Fin b => Qlt_bool a b
  | NInf, (Fin _ | PInf) => true
  | Fin _, PInf => true
  | _, _ => false
  end.

Definition fle (x y : float) : bool :=
  match x, y with
  | NaN, _ | _, NaN => false
  | Fin a, Fin b => Qle_bool a b
  | NInf, _ => true
  | _, PInf => true
  | _, _ => false
  end.

Definition fgt (x y : float) : bool := flt y x.

(** ** Candles and data frames *)

(** One row of the frame built by [get_klines]; only the columns that the
    program reads are kept. *)
Record candle : Type := Candle {
  open : Q;
  high : Q;
  low : Q;
  close : Q;
  volume : Q
}.

(** [xs.iloc[i]]: a negative index counts from the end; outside the frame
    pandas raises IndexError ([None]). *)
Definition iloc {A : Type} (xs : list A) (i : Z) : option A :=
  let n := Z.of_nat (length xs) in
  let j := if (i <? 0)%Z then (i + n)%Z else i in
  if ((j <? 0) || (n <=? j))%Z then None else xs !! Z.to_nat j.

(** [xs.iloc[start:]] with Python's slice rules: a negative start counts
    from the end and is clipped at the first row, a start beyond the
    frame gives the empty slice. *)
Definition iloc_from {A : Type} (xs : list A) (start : Z) : list A :=
  let n := Z.of_nat (length xs) in
  let s := if (start <? 0)%Z then Z.max (start + n) 0 else Z.min start n in
  drop (Z.to_nat s) xs.

(** ** Indicator calculator *)

(** [Series.ewm(span, adjust=False).mean()]:
    [y0 = x0], [y_t = (1 - alpha) * y_(t-1) + alpha * x_t].  [Qred] only
    brings the fraction to lowest terms, the value is unchanged. *)
Fixpoint ewm_from (alpha prev : Q) (xs : list Q) : list Q :=
  match xs with
  | [] => []
  | x :: rest =>
      let y := Qred ((1 - alpha) * prev + alpha * x) in
      y :: ewm_from alpha y rest
  end.

Definition ewm_mean (alpha : Q) (xs : list Q) : list Q :=
  match xs with
  | [] => []
  | x0 :: rest => x0 :: ewm_from alpha x0 rest
  end.

Definition calculate_ema (df : list candle) (period : Z) : list Q :=
  ewm_mean (2 / (inject_Z period + 1)) (map close df).

(** [Series.cumsum()] (fractions kept in lowest terms). *)
Fixpoint cumsum_from (acc : Q) (xs : list Q) : list Q :=
  match xs with
  | [] => []
  | x :: rest => let s := Qred (acc + x) in s :: cumsum_from s rest
  end.

Definition cumsum (xs : list Q) : list Q := cumsum_from 0 xs.

Definition calculate_vwap (df : list candle) : list float :=
  let typical_price := map (fun c => (high c + low c + close c) / 3) df in
  let pv := zip_with Qmult typical_price (map volume df) in
  zip_with (fun a b => fdiv (Fin a) (Fin b)) (cumsum pv) (cumsum (map volume df)).

(** [Series.diff()]: the first entry is NaN. *)
Definition diff (xs : list Q) : list float :=
  match xs with
  | [] => []
  | _ :: rest => NaN :: zip_with (fun x x_prev => Fin (x - x_prev)) rest xs
  end.

(** [s.where(cond, 0)]: entries failing the test (NaN among them) become 0. *)
Definition where_ (cond : float -> bool) (xs : list float) : list float :=
  map (fun d => if cond d then d else Fin 0) xs.

Definition fsum (xs : list float) : float := foldl fadd (Fin 0) xs.

(** [s.rolling(window).mean()]: NaN until [window] observations are
    available, then the mean of the last [window] entries. *)
Definition rolling_mean (window : nat) (xs : list float) : list float :=
  imap (fun i _ =>
          if (i + 1 <? window)%nat then NaN
          else fdiv (fsum (take window (drop (i + 1 - window) xs)))
                    (Fin (inject_Z (Z.of_nat window))))
       xs.

Definition calculate_rsi (df : list candle) (period : nat) : list float :=
  let delta := diff (map close df) in
  let gain := rolling_mean period (where_ (fun d => fgt d (Fin 0)) delta) in
  let loss :=
    rolling_mean period (map fneg (where_ (fun d => flt d (Fin 0)) delta)) in
  let rs := zip_with fdiv gain loss in
  map (fun r => fsub (Fin 100) (fdiv (Fin 100) (fadd (Fin 1) r))) rs.

(** [all(recent[i] < recent[i+1] for i in range(len(recent) - 1))]. *)
Definition all_increasing (recent : list Q) : bool :=
  forallb (fun i =>
             match recent !! i, recent !! (i + 1)%nat with
             | Some a, Some b => Qlt_bool a b
             | _, _ => false
             end)
          (seq 0 (length recent - 1)).

Definition check_volume_increasing (df : list candle) (lookback : Z) : bool :=
  let recent_volumes := iloc_from (map volume df) (- lookback) in
  if (length recent_volumes <? 2)%nat then false
  else all_increasing recent_volumes.

Definition is_bullish_candle (row : candle) : bool :=
  let body := Qabs (close row - open row) in
  let total_range := high row - low row in
  if Qeq_bool total_range 0 then false
  else Qlt_bool (open row) (close row)
       && flt (Fin (6 # 10)) (fdiv (Fin body) (Fin total_range)).

(** ** Setup evaluator and risk planner *)

(** A row of the frame after the indicator columns have been added. *)
Record row : Type := Row {
  bar : candle;
  ema_21 : Q;
  ema_200 : Q;
  vwap : float;
  rsi : float
}.

Definition add_indicators (df : list candle) : list row :=
  zip_with (fun '(c, e21, e200) '(v, r) => Row c e21 e200 v r)
           (zip (zip df (calculate_ema df 21)) (calculate_ema df 200))
           (zip (calculate_vwap df) (calculate_rsi df 14)).

Record buy_checks : Type := BuyChecks {
  trend_up : bool;
  above_ema200 : bool;
  near_support : bool;
  rsi_range : bool;
  strong_candle : bool;
  volume_up : bool
}.

Record sell_checks : Type := SellChecks {
  below_ema200 : bool;
  vwap_above : bool;
  near_resistance : bool;
  rejection : bool
}.

Inductive checks : Type :=
| Buy (b : buy_checks)
| Sell (s : sell_checks).

(** [all(checks.values())]. *)
Definition all_checks (c : checks) : bool :=
  match c with
  | Buy b =>
      trend_up b && above_ema200 b && near_support b && rsi_range b
      && strong_candle b && volume_up b
  | Sell s =>
      below_ema200 s && vwap_above s && near_resistance s && rejection s
  end.

Record risk_plan : Type := RiskPlan {
  entry : Q;
  stop : Q;
  target_1 : Q;
  target_2 : Q;
  target_3 : Q;
  risk_percent : float
}.

Record evaluation : Type := Evaluation {
  ev_signal : bool;
  ev_symbol : string;
  ev_price : Q;
  ev_ema_21 : Q;
  ev_ema_200 : Q;
  ev_vwap : float;
  ev_rsi : float;
  ev_checks : checks;
  ev_timestamp : string;
  ev_plan : option risk_plan
}.

(** The dictionary returned by [check_buy_setup] and [check_sell_setup]:
    either the two-key dictionary of the early return or the full one. *)
Inductive setup : Type :=
| NoData (reason : string)
| Evaluated (e : evaluation).

(** [setup['signal']]. *)
Definition signal (s : setup) : bool :=
  match s with
  | NoData _ => false
  | Evaluated e => ev_signal e
  end.

(** [abs(last['close'] - x) / last['close'] < 0.015]. *)
Definition near (c : Q) (x : float) : bool :=
  flt (fdiv (fabs (fsub (Fin c) x)) (Fin c)) (Fin (15 # 1000)).

(** [df] is the frame returned by [get_klines(symbol)] and [now] the
    formatted [datetime.now()]; [None] stands for an IndexError. *)
Definition check_buy_setup (symbol : string) (df : list candle) (now : string)
  : option setup :=
  if (length df =? 0)%nat || (length df <? 200)%nat
  then Some (NoData "Dados insuficientes")
  else
    let rows := add_indicators df in
    last ← iloc rows (-1);
    prev ← iloc rows (-2);
    let checks := {|
      trend_up := Qlt_bool (ema_200 last) (close (bar last));
      above_ema200 := Qlt_bool (ema_200 last) (close (bar last));
      near_support :=
        near (close (bar last)) (Fin (ema_21 last))
        || near (close (bar last)) (vwap last);
      rsi_range := fle (Fin 40) (rsi last) && fle (rsi last) (Fin 65);
      strong_candle := is_bullish_candle (bar last);
      volume_up := check_volume_increasing df 3
    |} in
    let all_conditions := all_checks (Buy checks) in
    let plan :=
      if all_conditions then
        let entry := high (bar last) in
        let stop := Qmin (low (bar prev)) (ema_21 last) in
        let risk := entry - stop in
        Some {| entry := entry;
                stop := stop;
                target_1 := entry + risk;
                target_2 := entry + risk * 2;
                target_3 := entry + risk * 3;
                risk_percent := fmul (fdiv (Fin risk) (Fin entry)) (Fin 100) |}
      else None in
    Some (Evaluated {|
      ev_signal := all_conditions;
      ev_symbol := symbol;
      ev_price := close (bar last);
      ev_ema_21 := ema_21 last;
      ev_ema_200 := ema_200 last;
      ev_vwap := vwap last;
      ev_rsi := rsi last;
      ev_checks := Buy checks;
      ev_timestamp := now;
      ev_plan := plan
    |}).

Definition check_sell_setup (symbol : string) (df : list candle) (now : string)
  : option setup :=
  if (length df =? 0)%nat || (length df <? 200)%nat
  then Some (NoData "Dados insuficientes")
  else
    let rows := add_indicators df in
    last ← iloc rows (-1);
    let checks := {|
      below_ema200 := Qlt_bool (close (bar last)) (ema_200 last);
      vwap_above := fgt (vwap last) (Fin (close (bar last)));
      near_resistance :=
        near (close (bar last)) (Fin (ema_21 last))
        || near (close (bar last)) (vwap last);
      rejection := Qlt_bool (close (bar last)) (open (bar last))
    |} in
    let all_conditions := all_checks (Sell checks) in
    Some (Evaluated {|
      ev_signal := all_conditions;
      ev_symbol := symbol;
      ev_price := close (bar last);
      ev_ema_21 := ema_21 last;
      ev_ema_200 := ema_200 last;
      ev_vwap := vwap last;
      ev_rsi := rsi last;
      ev_checks := Sell checks;
      ev_timestamp := now;
      ev_plan := None
    |}).

(** [is_bullish_candle] once more, returning next to its result the
    divisors of the divisions it performs ([and] evaluates its right
    operand only when the left one holds). *)
Definition is_bullish_candle_divisors (row : candle) : bool * list Q :=
  let body := Qabs (close row - open row) in
  let total_range := high row - low row in
  if Qeq_bool total_range 0 then (false, [])
  else if Qlt_bool (open row) (close row)
       then (flt (Fin (6 # 10)) (fdiv (Fin body) (Fin total_range)),
             [total_range])
       else (false, []).

Definition evaluation_of (o : option setup) : option evaluation :=
  match o with
  | Some (Evaluated e) => Some e
  | _ => None
  end.

(** ** Scan loop and alert cache *)

(** What [requests.post(...)] followed by [response.json()] does for a
    given text: it yields the decoded answer or raises. *)
Inductive delivery : Type :=
| Delivered (response : string)
| Failed.

(** One call of [send_message] made by the loop: the alert key it was made
    for ([None] for the error report), the text, and the value returned. *)
Record sent : Type := Sent {
  sent_key : option string;
  sent_text : string;
  sent_result : option string
}.

(** [last_alerts] is the dictionary of the alert system; [outbox] lists
    the calls of [send_message] in order. *)
Record state : Type := State {
  last_alerts : gmap string bool;
  outbox : list sent
}.

(** What the outside world supplies while one symbol is visited: the
    frames returned by the two [get_klines] calls and the readings of
    [datetime.now()], formatted as the program formats them. *)
Record visit : Type := Visit {
  v_symbol : string;
  buy_klines : list candle;
  buy_now : string;
  buy_hour : string;
  sell_klines : list candle;
  sell_now : string;
  sell_hour : string
}.

Inductive outcome : Type :=
| Completed (st : state)
| Raised (st : state).

(** [f"{symbol}_BUY_{hour}"] and [f"{symbol}_SELL_{hour}"]. *)
Definition alert_key (symbol tag hour : string) : string :=
  symbol +:+ tag +:+ hour.

Definition initial_state : state := State ∅ [].

Section Monitor.

(** The text built by [format_telegram_alert] and the text of the error
    report are left open: the properties below concern how many messages
    are handed over, not their wording. *)
Variable format_telegram_alert : setup -> string -> string.
Variable error_msg : string.
Variable post : string -> delivery.

(** [TelegramBot.send_message]: an exception of the transport is caught
    and [None] is returned. *)
Definition send_message (text : string) : option string :=
  match post text with
  | Delivered response => Some response
  | Failed => None
  end.

(** The block of [monitor] that follows each setup check (it is written
    once for COMPRA and once for VENDA). *)
Definition alert_once (s : setup) (trade_type key : string) (st : state)
  : state :=
  if signal s then
    match last_alerts st !! key with
    | Some _ => st
    | None =>
        let message := format_telegram_alert s trade_type in
        let result := send_message message in
        {| last_alerts := <[key := true]> (last_alerts st);
           outbox := outbox st ++ [Sent (Some key) message result] |}
    end
  else st.

(** Body of [for symbol in self.symbols]. *)
Definition visit_symbol (v : visit) (st : state) : outcome :=
  match check_buy_setup (v_symbol v) (buy_klines v) (buy_now v) with
  | None => Raised st
  | Some buy_setup =>
      let st1 :=
        alert_once buy_setup "COMPRA"
                   (alert_key (v_symbol v) "_BUY_" (buy_hour v)) st in
      match check_sell_setup (v_symbol v) (sell_klines v) (sell_now v) with
      | None => Raised st1
      | Some sell_setup =>
          Completed
            (alert_once sell_setup "VENDA"
                        (alert_key (v_symbol v) "_SELL_" (sell_hour v)) st1)
      end
  end.

Fixpoint scan_symbols (visits : list visit) (st : state) : outcome :=
  match visits with
  | [] => Completed st
  | v :: rest =>
      match visit_symbol v st with
      | Completed st' => scan_symbols rest st'
      | Raised st' => Raised st'
      end
  end.

(** One turn of [while True]: the pass over the symbols, then the reset
    of the cache; an exception skips the rest of the turn and is
    reported. *)
Definition monitor_pass (visits : list visit) (st : state) : state :=
  match scan_symbols visits st with
  | Completed st' =>
      if (100 <? size (last_alerts st'))%nat
      then {| last_alerts := ∅; outbox := outbox st' |}
      else st'
  | Raised st' =>
      {| last_alerts := last_alerts st';
         outbox := outbox st' ++ [Sent None error_msg (send_message error_msg)] |}
  end.

(** The turns of the loop made before the program is interrupted; the
    start and stop messages, sent outside the loop, are left out. *)
Definition monitor (passes : list (list visit)) (st : state) : state :=
  foldl (fun st visits => monitor_pass visits st) st passes.

(** The cache is not reset during the given turns of the loop: none of
    them ends with more than 100 recorded keys. *)
Fixpoint no_reset (passes : list (list visit)) (st : state) : Prop :=
  match passes with
  | [] => True
  | visits :: rest =>
      match scan_symbols visits st with
      | Completed st' => (size (last_alerts st') <= 100)%nat
      | Raised _ => True
      end
      /\ no_reset rest (monitor_pass visits st)
  end.

End Monitor.

(** ** Vocabulary of the properties *)

Definition strong_bullish (c : candle) : Prop :=
  open c < close c
  /\ ~ high c == low c
  /\ 6 # 10 < Qabs (close c - open c) / (high c - low c).

Definition strictly_increasing (w : list Q) : Prop :=
  forall i a b, w !! i = Some a -> w !! S i = Some b -> a < b.

(** "Within 1.5%": the distance to the indicator, divided by the close,
    is below 0.015.  For an infinite indicator (a frame whose cumulative
    volume is zero) the quotient is an infinity with the sign of the
    close; a NaN indicator is never near. *)
Definition within_pct (c : Q) (x : float) : Prop :=
  match x with
  | Fin v => ~ c == 0 /\ Qabs (c - v) / c < 15 # 1000
  | PInf | NInf => c < 0
  | NaN => False
  end.

Definition rsi_between (lo hi : Q) (r : float) : Prop :=
  match r with
  | Fin q => lo <= q /\ q <= hi
  | _ => False
  end.

(** The volumes of the last three candles rise strictly. *)
Definition volumes_rising (df : list candle) : Prop :=
  exists pre a b c,
    df = pre ++ [a; b; c] /\ volume a < volume b /\ volume b < volume c.

(** [r] is row [i] of the frame: its candle and its indicator values are
    those found at [i] in the frame and in the indicator columns. *)
Definition row_at (df : list candle) (i : Z) (r : row) : Prop :=
  iloc df i = Some (bar r)
  /\ iloc (calculate_ema df 21) i = Some (ema_21 r)
  /\ iloc (calculate_ema df 200) i = Some (ema_200 r)
  /\ iloc (calculate_vwap df) i = Some (vwap r)
  /\ iloc (calculate_rsi df 14) i = Some (rsi r).

(** The gains and the losses of a series of closes as rationals: entry
    [k >= 1] is the rise (the fall) from close [k - 1] to close [k], or 0;
    entry 0 is 0. *)
Definition gains (xs : list Q) : list Q :=
  match xs with
  | [] => []
  | _ :: rest =>
      0 :: zip_with (fun x p => if Qlt_bool 0 (x - p) then x - p else 0) rest xs
  end.

Definition losses (xs : list Q) : list Q :=
  match xs with
  | [] => []
  | _ :: rest =>
      - 0 :: zip_with (fun x p => - (if Qlt_bool (x - p) 0 then x - p else 0))
                      rest xs
  end.

Definition qsum (qs : list Q) : Q := foldl Qplus 0 qs.

(** Close [k] is below (above) close [k - 1]. *)
Definition falls (df : list candle) (k : nat) : Prop :=
  exists k' p c,
    k = S k' /\ df !! k' = Some p /\ df !! k = Some c /\ close c < close p.

Definition rises (df : list candle) (k : nat) : Prop :=
  exists k' p c,
    k = S k' /\ df !! k' = Some p /\ df !! k = Some c /\ close p < close c.

(** The rows whose change of close enters the 14-period RSI of row [i]. *)
Definition rsi_window (i k : nat) : Prop := (i - 13 <= k <= i)%nat.

Inductive direction : Type := BUY | SELL.

Definition tag (d : direction) : string :=
  match d with BUY => "_BUY_" | SELL => "_SELL_" end.

Definition setup_of (d : direction) (v : visit) : option setup :=
  match d with
  | BUY => check_buy_setup (v_symbol v) (buy_klines v) (buy_now v)
  | SELL => check_sell_setup (v_symbol v) (sell_klines v) (sell_now v)
  end.

Definition hour_of (d : direction) (v : visit) : string :=
  match d with BUY => buy_hour v | SELL => sell_hour v end.

Definition key_of (d : direction) (v : visit) : string :=
  alert_key (v_symbol v) (tag d) (hour_of d v).

(** The setup of direction [d] fires during visit [v]. *)
Definition fires (d : direction) (v : visit) : bool :=
  match setup_of d v with
  | Some s => signal s
  | None => false
  end.

(** Visit [v] has a firing setup whose alert key is [k]. *)
Definition fires_key (k : string) (v : visit) : bool :=
  (fires BUY v && bool_decide (key_of BUY v = k))
  || (fires SELL v && bool_decide (key_of SELL v = k)).

(** Number of alerts handed to [send_message] under key [k]. *)
Definition alerts_for (k : string) (st : state) : nat :=
  length (filter (fun e => sent_key e = Some k) (outbox st)).

(** During the given turns some visit of [symbol] sees the setup of
    direction [d] fire while the clock reads [hour]. *)
Definition fired_in (symbol : string) (d : direction) (hour : string)
    (passes : list (list visit)) : Prop :=
  exists visits v,
    In visits passes /\ In v visits
    /\ v_symbol v = symbol /\ hour_of d v = hour /\ fires d v = true.

(** The indicator lies above the close [c], as the comparison
    [x > c] decides it: never for NaN. *)
Definition exceeds (x : float) (c : Q) : Prop :=
  match x with
  | Fin v => c < v
  | PInf => True
  | NInf | NaN => False
  end.

(** The keys under which the visits may alert: those of the setups that
    fire during one of them. *)
Definition fired_keys (visits : list visit) (k : string) : Prop :=
  exists v d, In v visits /\ fires d v = true /\ key_of d v = k.

(** Going from [st] to [st'] hands over exactly the messages [new], one
    for each key added to the cache, each under a key allowed by [fired]
    that was not recorded before; recorded keys are kept. *)
Definition alerts_sent (fired : string -> Prop) (st st' : state)
    (new : list sent) : Prop :=
  outbox st' = outbox st ++ new
  /\ size (last_alerts st') = (size (last_alerts st) + length new)%nat
  /\ (forall k b, last_alerts st !! k = Some b ->
                  last_alerts st' !! k = Some b)
  /\ Forall (fun e => exists k,
                 sent_key e = Some k /\ fired k
                 /\ last_alerts st !! k = None
                 /\ last_alerts st' !! k = Some true) new.

(** ** Sample frames *)

Definition flat (price vol : Q) : candle := Candle price price price price vol.

(** 197 quiet candles at 200, a rise to 203, a fall back to 200 and a
    strong candle closing at 202 on rising volume; every candle opens at
    the previous close. *)
Definition firing_frame : list candle :=
  repeat (flat 200 1) 197
  ++ [Candle 200 203 200 203 1; Candle 203 203 200 200 2; Candle 200 202 200 202 3].

(** 170 quiet candles at 200, then 29 candles swinging between 220 and
    222, and a last candle that opens below the previous low (a gap down)
    and closes strongly at 217. *)
Definition gap_frame : list candle :=
  repeat (flat 200 1) 170
  ++ flat_map (fun _ => [Candle 222 222 220 220 1; Candle 220 222 220 222 1])
              (seq 0 14)
  ++ [Candle 220 222 220 222 2; Candle 216 217 216 217 3].

(** 185 rising candles that close at 101, 102, ..., 285, followed by
    fifteen candles that all close at 286. *)
Definition plateau_frame : list candle :=
  map (fun i => let p := inject_Z (Z.of_nat (100 + i)) in Candle p (p + 1) p (p + 1) 1)
      (seq 0 185)
  ++ repeat (Candle 286 287 285 286 1) 15.

(** 199 candles at 1967 and a last one at 2000, with volumes chosen so
    that EMA-21 and VWAP both end at 1970, which is 1.5% of 2000 below the
    close. *)
Definition edge_frame : list candle :=
  repeat (flat 1967 10) 199 ++ [Candle 2000 2000 2000 2000 199].

(** 199 quiet candles at 200 and a last candle that falls from 200 to
    199. *)
Definition falling_frame : list candle :=
  repeat (flat 200 1) 199 ++ [Candle 200 200 199 199 1].

(** ** Sample runs *)

(** The symbols of the program's configuration block. *)
Definition default_symbols : list string :=
  ["BTCUSDT"; "ETHUSDT"; "BNBUSDT"; "SOLUSDT";
   "ADAUSDT"; "XRPUSDT"; "DOGEUSDT"; "AVAXUSDT"].

(** A visit during which both fetches return [firing_frame]. *)
Definition bullish_visit (hour symbol : string) : visit :=
  Visit symbol firing_frame "2024-01-01 00:00:00" hour
        firing_frame "2024-01-01 00:00:00" hour.

Definition bullish_pass (hour : string) : list visit :=
  map (bullish_visit hour) default_symbols.

Definition thirteen_hours : list string :=
  ["2024010100"; "2024010101"; "2024010102"; "2024010103"; "2024010104";
   "2024010105"; "2024010106"; "2024010107"; "2024010108"; "2024010109";
   "2024010110"; "2024010111"; "2024010112"].

(** Two turns of the loop in each of the given hours. *)
Definition half_hourly (hours : list string) : list (list visit) :=
  flat_map (fun h => [bullish_pass h; bullish_pass h]) hours.

Definition plain_format (s : setup) (trade_type : string) : string :=
  trade_type.

Definition always_delivered (text : string) : delivery := Delivered "ok".

Definition always_failed (text : string) : delivery := Failed.

(** The run of twelve hours, after which 96 keys are recorded. *)
Definition twelve_hours_run : state :=
  monitor plain_format "error" always_delivered
          (half_hourly (take 12 thirteen_hours)) initial_state.

Definition outcome_state (o : outcome) : state :=
  match o with
  | Completed st | Raised st => st
  end.

(** * Properties *)

(** ** Comparisons on rationals *)

Lemma Qlt_bool_iff (x y : Q) : Qlt_bool x y = true <-> x < y.
Proof.
  unfold Qlt_bool. rewrite negb_true_iff. split.
  - intros H. apply Qnot_le_lt. intros Hle.
    apply Qle_bool_iff in Hle. congruence.
  - intros H. destruct (Qle_bool y x) eqn:E; [|reflexivity].
    apply Qle_bool_iff in E. lra.
Qed.

Lemma Qlt_bool_false (x y : Q) : Qlt_bool x y = false <-> y <= x.
Proof.
  unfold Qlt_bool. rewrite negb_false_iff. apply Qle_bool_iff.
Qed.

Lemma Qeq_bool_false (x y : Q) : Qeq_bool x y = false <-> ~ x == y.
Proof.
  split.
  - apply Qeq_bool_neq.
  - intros H. destruct (Qeq_bool x y) eqn:E; [|reflexivity].
    apply Qeq_bool_iff in E. contradiction.
Qed.

(** ** Candle strength *)

Lemma is_bullish_candle_iff (row : candle) :
  is_bullish_candle row = true <-> strong_bullish row.
Proof.
  unfold is_bullish_candle, strong_bullish.
  destruct (Qeq_bool (high row - low row) 0) eqn:E.
  - apply Qeq_bool_iff in E. split; [discriminate|].
    intros (_ & Hne & _). exfalso. apply Hne. lra.
  - simpl. rewrite E, andb_true_iff, !Qlt_bool_iff.
    apply Qeq_bool_false in E. split.
    + intros [H1 H2]. repeat split; try assumption.
      intros Heq. apply E. lra.
    + intros (H1 & _ & H2). split; assumption.
Qed.

(** ** Volume trend *)

Lemma all_increasing_iff (w : list Q) :
  all_increasing w = true <-> strictly_increasing w.
Proof.
  unfold all_increasing, strictly_increasing.
  rewrite forallb_forall. split.
  - intros H i a b Ha Hb.
    assert (Hlen : (S i < length w)%nat) by (eapply lookup_lt_Some; eauto).
    specialize (H i). rewrite Nat.add_1_r, Ha, Hb in H.
    apply Qlt_bool_iff, H, in_seq. lia.
  - intros H i Hi. apply in_seq in Hi. rewrite Nat.add_1_r.
    destruct (lookup_lt_is_Some_2 w i) as [a Ha]; [lia|].
    destruct (lookup_lt_is_Some_2 w (S i)) as [b Hb]; [lia|].
    rewrite Ha, Hb. apply Qlt_bool_iff. eauto.
Qed.

Lemma map_fmap {A B : Type} (f : A -> B) (l : list A) : map f l = f <$> l.
Proof. reflexivity. Qed.

Lemma strictly_increasing_three (a b c : Q) :
  strictly_increasing [a; b; c] <-> a < b /\ b < c.
Proof.
  unfold strictly_increasing. split.
  - intros H. split; [apply (H 0%nat) | apply (H 1%nat)]; reflexivity.
  - intros [H1 H2] i x y Hx Hy.
    destruct i as [|[|[|i]]]; simpl in *; try discriminate;
      injection Hx as <-; injection Hy as <-; assumption.
Qed.

Lemma iloc_from_trailing {A : Type} (xs : list A) (n : Z) :
  (0 < n)%Z -> iloc_from xs (- n) = drop (length xs - Z.to_nat n) xs.
Proof.
  intros Hn. unfold iloc_from.
  destruct (- n <? 0)%Z eqn:E; [|apply Z.ltb_ge in E; lia].
  f_equal. lia.
Qed.

Lemma check_volume_increasing_iff (df : list candle) (lookback : Z) :
  check_volume_increasing df lookback = true <->
  (2 <= length (iloc_from (map volume df) (- lookback)))%nat
  /\ strictly_increasing (iloc_from (map volume df) (- lookback)).
Proof.
  unfold check_volume_increasing.
  destruct (Nat.ltb_spec (length (iloc_from (map volume df) (- lookback))) 2).
  - split; [discriminate | intros [? _]; lia].
  - rewrite all_increasing_iff. split; [intros; split; [lia | assumption] | tauto].
Qed.

Lemma is_bullish_candle_divisors_fst (row : candle) :
  fst (is_bullish_candle_divisors row) = is_bullish_candle row.
Proof.
  unfold is_bullish_candle_divisors, is_bullish_candle.
  destruct (Qeq_bool (high row - low row) 0); [reflexivity|].
  destruct (Qlt_bool (open row) (close row)); reflexivity.
Qed.



Lemma iloc_from_lookup {A : Type} (xs : list A) (start : Z) (i : nat) (x : A) :
  iloc_from xs start !! i = Some x -> exists j, xs !! j = Some x.
Proof.
  unfold iloc_from. rewrite lookup_drop. eauto.
Qed.

(** C8. [check_volume_increasing] answers true exactly when its window,
    the slice [iloc[-lookback:]] of the volumes, holds at least two
    entries and rises strictly from each entry to the next; a window of
    fewer than two entries gives false; for a positive [lookback] the
    window is made of the last [lookback] volumes (all of them when the
    frame is shorter); and a frame whose volumes are all equal gives false,
    in particular a frame of 200 or more candles with the default window
    of 3. *)
Theorem check_volume_increasing_spec (df : list candle) (lookback : Z) :
  (check_volume_increasing df lookback = true <->
     (2 <= length (iloc_from (map volume df) (- lookback)))%nat
     /\ strictly_increasing (iloc_from (map volume df) (- lookback)))
  /\ ((length (iloc_from (map volume df) (- lookback)) < 2)%nat ->
      check_volume_increasing df lookback = false)
  /\ ((0 < lookback)%Z ->
      iloc_from (map volume df) (- lookback)
      = drop (length df - Z.to_nat lookback) (map volume df))
  /\ ((forall i j a b,
         df !! i = Some a -> df !! j = Some b -> volume a == volume b) ->
      check_volume_increasing df lookback = false
      /\ ((200 <= length df)%nat -> check_volume_increasing df 3 = false)).
Proof.
  split; [apply check_volume_increasing_iff|].
  split; [|split].
  - intros H. apply not_true_is_false. rewrite check_volume_increasing_iff. lia.
  - intros H. rewrite iloc_from_trailing by assumption. now rewrite length_map.
  - intros Hconst.
    assert (Hall : forall n, check_volume_increasing df n = false).
    { intros n. apply not_true_is_false. rewrite check_volume_increasing_iff.
      intros [Hlen Hinc].
      destruct (lookup_lt_is_Some_2 (iloc_from (map volume df) (- n)) 0)
        as [a Ha]; [lia|].
      destruct (lookup_lt_is_Some_2 (iloc_from (map volume df) (- n)) 1)
        as [b Hb]; [lia|].
      pose proof (Hinc 0%nat a b Ha Hb) as Hlt.
      apply iloc_from_lookup in Ha as [i Ha], Hb as [j Hb].
      rewrite map_fmap, list_lookup_fmap in Ha, Hb.
      destruct (df !! i) as [ca|] eqn:Ea; [|discriminate].
      destruct (df !! j) as [cb|] eqn:Eb; [|discriminate].
      injection Ha as <-. injection Hb as <-.
      pose proof (Hconst i j ca cb Ea Eb). lra. }
    split; [apply Hall | intros _; apply Hall].
Qed.

Lemma check_volume_increasing_spec_witness :
  (200 <= length (repeat (flat 100 5) 200))%nat
  /\ check_volume_increasing (repeat (flat 100 5) 200) 3 = false
  /\ iloc_from (map volume firing_frame) (- 3) = [1; 2; 3]
  /\ check_volume_increasing firing_frame 3 = true.
Proof.
  assert (Hlen : (200 <= length (repeat (flat 100 5) 200))%nat)
    by (vm_compute; lia).
  split; [exact Hlen|]. split; [|split; [reflexivity|]].
  - destruct (check_volume_increasing_spec (repeat (flat 100 5) 200) 3)
      as (_ & _ & _ & Hconst).
    apply Hconst; [|exact Hlen].
    intros i j a b Ha Hb.
    apply list_elem_of_lookup_2, list_elem_of_In, repeat_spec in Ha.
    apply list_elem_of_lookup_2, list_elem_of_In, repeat_spec in Hb.
    subst. reflexivity.
  - destruct (check_volume_increasing_spec firing_frame 3) as (Hiff & _).
    apply Hiff. split; [vm_compute; lia|].
    change (iloc_from (map volume firing_frame) (- 3)) with [1; 2; 3].
    apply strictly_increasing_three. split; reflexivity.
Defined.

(** ** Shape of the indicator columns *)

Lemma length_ewm_from (alpha prev : Q) (xs : list Q) :
  length (ewm_from alpha prev xs) = length xs.
Proof.
  revert prev. induction xs as [|x xs IH]; intros prev; simpl; [|rewrite IH]; reflexivity.
Qed.

Lemma length_calculate_ema (df : list candle) (period : Z) :
  length (calculate_ema df period) = length df.
Proof.
  unfold calculate_ema, ewm_mean.
  destruct df as [|c df]; simpl; [reflexivity|].
  now rewrite length_ewm_from, length_map.
Qed.

Lemma length_cumsum_from (acc : Q) (xs : list Q) :
  length (cumsum_from acc xs) = length xs.
Proof.
  revert acc. induction xs as [|x xs IH]; intros acc; simpl; [|rewrite IH]; reflexivity.
Qed.

Lemma length_calculate_vwap (df : list candle) :
  length (calculate_vwap df) = length df.
Proof.
  unfold calculate_vwap, cumsum.
  rewrite length_zip_with, !length_cumsum_from, length_zip_with, !length_map.
  lia.
Qed.

Lemma length_diff (xs : list Q) : length (diff xs) = length xs.
Proof.
  destruct xs as [|x xs]; simpl; [reflexivity|].
  rewrite length_zip_with. simpl. lia.
Qed.

Lemma length_rolling_mean (window : nat) (xs : list float) :
  length (rolling_mean window xs) = length xs.
Proof. unfold rolling_mean. apply length_imap. Qed.

Lemma length_calculate_rsi (df : list candle) (period : nat) :
  length (calculate_rsi df period) = length df.
Proof.
  unfold calculate_rsi, where_.
  rewrite length_map, length_zip_with, !length_rolling_mean, !length_map, length_diff, length_map.
  lia.
Qed.

Lemma length_add_indicators (df : list candle) :
  length (add_indicators df) = length df.
Proof.
  unfold add_indicators.
  rewrite length_zip_with, !length_zip, !length_calculate_ema,
    length_calculate_vwap, length_calculate_rsi.
  lia.
Qed.

Lemma iloc_is_Some {A : Type} (xs : list A) (i : Z) :
  (- Z.of_nat (length xs) <= i < 0)%Z -> is_Some (iloc xs i).
Proof.
  intros Hi. unfold iloc.
  destruct (i <? 0)%Z eqn:E; [|apply Z.ltb_ge in E; lia].
  destruct ((i + Z.of_nat (length xs) <? 0)%Z
            || (Z.of_nat (length xs) <=? i + Z.of_nat (length xs))%Z) eqn:E2.
  - apply orb_true_iff in E2 as [E2|E2]; [apply Z.ltb_lt in E2 | apply Z.leb_le in E2]; lia.
  - apply lookup_lt_is_Some_2. lia.
Qed.

Lemma iloc_last {A : Type} (xs : list A) (x : A) :
  iloc (xs ++ [x]) (-1) = Some x.
Proof.
  unfold iloc. rewrite length_app. simpl.
  replace (-1 + Z.of_nat (length xs + 1))%Z with (Z.of_nat (length xs)) by lia.
  destruct ((Z.of_nat (length xs) <? 0)%Z
            || (Z.of_nat (length xs + 1) <=? Z.of_nat (length xs))%Z) eqn:E.
  - apply orb_true_iff in E as [E|E]; [apply Z.ltb_lt in E | apply Z.leb_le in E]; lia.
  - rewrite Nat2Z.id. apply list_lookup_middle. reflexivity.
Qed.

(** ** Insufficient data *)

Lemma short_frame (df : list candle) :
  (length df < 200)%nat ->
  (length df =? 0)%nat || (length df <? 200)%nat = true.
Proof.
  intros H. apply orb_true_iff. right. apply Nat.ltb_lt. exact H.
Qed.

Lemma long_frame (df : list candle) :
  (200 <= length df)%nat ->
  (length df =? 0)%nat || (length df <? 200)%nat = false.
Proof.
  intros H. apply orb_false_iff. split; [apply Nat.eqb_neq | apply Nat.ltb_ge]; lia.
Qed.

(** C6. A frame that is empty or shorter than 200 candles makes both
    [check_buy_setup] and [check_sell_setup] return the two-key result
    with [signal] false and the reason "Dados insuficientes", whatever the
    candles hold: no indicator and no condition enters the result. *)
Theorem insufficient_data_short_circuits
    (symbol : string) (df : list candle) (now : string) :
  (length df < 200)%nat ->
  check_buy_setup symbol df now = Some (NoData "Dados insuficientes")
  /\ check_sell_setup symbol df now = Some (NoData "Dados insuficientes")
  /\ (signal <$> check_buy_setup symbol df now) = Some false
  /\ (signal <$> check_sell_setup symbol df now) = Some false.
Proof.
  intros H. unfold check_buy_setup, check_sell_setup.
  rewrite (short_frame df H). repeat split.
Qed.

Lemma insufficient_data_short_circuits_witness :
  (length (repeat (Candle 1 2 1 2 5) 199) < 200)%nat
  /\ check_buy_setup "BTCUSDT" (repeat (Candle 1 2 1 2 5) 199) "now"
     = Some (NoData "Dados insuficientes")
  /\ check_sell_setup "BTCUSDT" [] "now" = Some (NoData "Dados insuficientes").
Proof.
  split; [vm_compute; lia|]. split.
  - apply (insufficient_data_short_circuits "BTCUSDT" (repeat (Candle 1 2 1 2 5) 199) "now").
    vm_compute; lia.
  - apply (insufficient_data_short_circuits "BTCUSDT" [] "now"). simpl; lia.
Defined.

(** ** Conditions of the setups, stated on the numbers *)

Lemma inf_of_sign_nonneg (a : Q) : 0 <= a -> inf_of_sign a = PInf.
Proof.
  intros H. unfold inf_of_sign.
  destruct (Qlt_bool a 0) eqn:E; [|reflexivity].
  apply Qlt_bool_iff in E. lra.
Qed.

Lemma inf_of_sign_neg (a : Q) : a < 0 -> inf_of_sign a = NInf.
Proof.
  intros H. unfold inf_of_sign.
  apply Qlt_bool_iff in H. now rewrite H.
Qed.

Lemma near_iff (c : Q) (x : float) : near c x = true <-> within_pct c x.
Proof.
  unfold near, within_pct.
  destruct x as [v| | |]; cbn [fsub fneg fadd fabs fdiv].
  - destruct (Qeq_bool c 0) eqn:E.
    + apply Qeq_bool_iff in E.
      assert (Hf : flt (if Qeq_bool (Qabs (c + - v)) 0 then NaN
                        else inf_of_sign (Qabs (c + - v))) (Fin (15 # 1000)) = false).
      { destruct (Qeq_bool (Qabs (c + - v)) 0); [reflexivity|].
        now rewrite inf_of_sign_nonneg by apply Qabs_nonneg. }
      rewrite Hf. split; [discriminate | intros [Hc _]; contradiction].
    + apply Qeq_bool_false in E. cbn [flt]. rewrite Qlt_bool_iff.
      unfold Qminus. tauto.
  - destruct (Qlt_le_dec c 0) as [Hc|Hc].
    + rewrite inf_of_sign_neg by assumption. cbn [flt]. tauto.
    + rewrite inf_of_sign_nonneg by assumption. cbn [flt].
      split; [discriminate | lra].
  - destruct (Qlt_le_dec c 0) as [Hc|Hc].
    + rewrite inf_of_sign_neg by assumption. cbn [flt]. tauto.
    + rewrite inf_of_sign_nonneg by assumption. cbn [flt].
      split; [discriminate | lra].
  - split; [discriminate | tauto].
Qed.

Lemma rsi_range_iff (lo hi : Q) (r : float) :
  fle (Fin lo) r && fle r (Fin hi) = true <-> rsi_between lo hi r.
Proof.
  destruct r as [q| | |]; cbn [fle rsi_between].
  - now rewrite andb_true_iff, !Qle_bool_iff.
  - rewrite andb_false_r. split; [discriminate | tauto].
  - split; [discriminate | tauto].
  - split; [discriminate | tauto].
Qed.

Lemma last_three {A : Type} (xs : list A) :
  (3 <= length xs)%nat ->
  exists pre a b c,
    xs = pre ++ [a; b; c] /\ drop (length xs - 3) xs = [a; b; c].
Proof.
  intros H.
  pose proof (take_drop (length xs - 3) xs) as Hsplit.
  assert (Hlen : length (drop (length xs - 3) xs) = 3%nat)
    by (rewrite length_drop; lia).
  destruct (drop (length xs - 3) xs) as [|a [|b [|c [|d tl]]]] eqn:E;
    simpl in Hlen; try lia.
  exists (take (length xs - 3) xs), a, b, c. split; [now symmetry | reflexivity].
Qed.

Lemma volume_up_iff (df : list candle) :
  (3 <= length df)%nat ->
  check_volume_increasing df 3 = true <-> volumes_rising df.
Proof.
  intros Hlen. rewrite check_volume_increasing_iff.
  rewrite iloc_from_trailing by lia. rewrite length_map.
  change (Z.to_nat 3) with 3%nat.
  destruct (last_three df Hlen) as (pre & a & b & c & Hdf & Hdrop).
  rewrite skipn_map, Hdrop.
  cbn [map length]. rewrite strictly_increasing_three. split.
  - intros [_ H]. now exists pre, a, b, c.
  - intros (pre' & a' & b' & c' & Hdf' & H). split; [lia|].
    rewrite Hdf' in Hdf.
    assert (Happ : pre' ++ [a'; b'; c'] = pre ++ [a; b; c]) by exact Hdf.
    apply app_inj_2 in Happ as [_ Heq]; [|reflexivity].
    injection Heq as -> -> ->. exact H.
Qed.

(** ** Rows of the frame with indicators *)

Lemma add_indicators_lookup (df : list candle) (i : nat) (r : row) :
  add_indicators df !! i = Some r ->
  df !! i = Some (bar r)
  /\ calculate_ema df 21 !! i = Some (ema_21 r)
  /\ calculate_ema df 200 !! i = Some (ema_200 r)
  /\ calculate_vwap df !! i = Some (vwap r)
  /\ calculate_rsi df 14 !! i = Some (rsi r).
Proof.
  unfold add_indicators. intros H.
  apply lookup_zip_with_Some in H as ([[c e21] e200] & [v rs] & -> & H1 & H2).
  apply lookup_zip_with_Some in H1 as ([c' e21'] & e200' & Heq & H1 & H3).
  injection Heq as <- <- <-.
  apply lookup_zip_with_Some in H1 as (c' & e21' & Heq & H1 & H4).
  injection Heq as <- <-.
  apply lookup_zip_with_Some in H2 as (v' & rs' & Heq & H2 & H5).
  injection Heq as <- <-.
  simpl. auto.
Qed.

Lemma iloc_add_indicators (df : list candle) (i : Z) (r : row) :
  iloc (add_indicators df) i = Some r -> row_at df i r.
Proof.
  unfold row_at, iloc.
  rewrite length_add_indicators, !length_calculate_ema,
    length_calculate_vwap, length_calculate_rsi.
  destruct (_ || _)%bool; [discriminate|].
  apply add_indicators_lookup.
Qed.

Lemma buy_evaluated (symbol : string) (df : list candle) (now : string) :
  (200 <= length df)%nat ->
  exists last prev e,
    iloc (add_indicators df) (-1) = Some last
    /\ iloc (add_indicators df) (-2) = Some prev
    /\ check_buy_setup symbol df now = Some (Evaluated e)
    /\ ev_checks e = Buy {|
         trend_up := Qlt_bool (ema_200 last) (close (bar last));
         above_ema200 := Qlt_bool (ema_200 last) (close (bar last));
         near_support :=
           near (close (bar last)) (Fin (ema_21 last))
           || near (close (bar last)) (vwap last);
         rsi_range := fle (Fin 40) (rsi last) && fle (rsi last) (Fin 65);
         strong_candle := is_bullish_candle (bar last);
         volume_up := check_volume_increasing df 3 |}
    /\ ev_signal e = all_checks (ev_checks e)
    /\ ev_plan e =
       (if ev_signal e then
          Some {| entry := high (bar last);
                  stop := Qmin (low (bar prev)) (ema_21 last);
                  target_1 :=
                    high (bar last)
                    + (high (bar last) - Qmin (low (bar prev)) (ema_21 last));
                  target_2 :=
                    high (bar last)
                    + (high (bar last) - Qmin (low (bar prev)) (ema_21 last)) * 2;
                  target_3 :=
                    high (bar last)
                    + (high (bar last) - Qmin (low (bar prev)) (ema_21 last)) * 3;
                  risk_percent :=
                    fmul (fdiv (Fin (high (bar last)
                                     - Qmin (low (bar prev)) (ema_21 last)))
                               (Fin (high (bar last))))
                         (Fin 100) |}
        else None).
Proof.
  intros Hlen.
  destruct (iloc_is_Some (add_indicators df) (-1)) as [last Hlast];
    [rewrite length_add_indicators; lia|].
  destruct (iloc_is_Some (add_indicators df) (-2)) as [prev Hprev];
    [rewrite length_add_indicators; lia|].
  exists last, prev. unfold check_buy_setup.
  rewrite (long_frame df Hlen), Hlast, Hprev. cbn [mbind option_bind].
  eexists. repeat split.
Qed.

Lemma sell_evaluated (symbol : string) (df : list candle) (now : string) :
  (200 <= length df)%nat ->
  exists last e,
    iloc (add_indicators df) (-1) = Some last
    /\ check_sell_setup symbol df now = Some (Evaluated e)
    /\ ev_checks e = Sell {|
         below_ema200 := Qlt_bool (close (bar last)) (ema_200 last);
         vwap_above := fgt (vwap last) (Fin (close (bar last)));
         near_resistance :=
           near (close (bar last)) (Fin (ema_21 last))
           || near (close (bar last)) (vwap last);
         rejection := Qlt_bool (close (bar last)) (open (bar last)) |}
    /\ ev_signal e = all_checks (ev_checks e)
    /\ ev_plan e = None.
Proof.
  intros Hlen.
  destruct (iloc_is_Some (add_indicators df) (-1)) as [last Hlast];
    [rewrite length_add_indicators; lia|].
  exists last. unfold check_sell_setup.
  rewrite (long_frame df Hlen), Hlast. cbn [mbind option_bind].
  eexists. repeat split.
Qed.

(** Neither check raises: the early return guards every row access. *)
Lemma check_buy_setup_total (symbol : string) (df : list candle) (now : string) :
  is_Some (check_buy_setup symbol df now).
Proof.
  destruct (Nat.lt_ge_cases (length df) 200) as [H|H].
  - unfold check_buy_setup. rewrite (short_frame df H). eauto.
  - destruct (buy_evaluated symbol df now H) as (? & ? & e & _ & _ & -> & _). eauto.
Qed.

Lemma check_sell_setup_total (symbol : string) (df : list candle) (now : string) :
  is_Some (check_sell_setup symbol df now).
Proof.
  destruct (Nat.lt_ge_cases (length df) 200) as [H|H].
  - unfold check_sell_setup. rewrite (short_frame df H). eauto.
  - destruct (sell_evaluated symbol df now H) as (? & e & _ & -> & _). eauto.
Qed.

(** ** The long setup *)



(** ** Risk plan *)




(** ** Nearness *)

(** The distance is measured against the close: an indicator at 200 is
    exactly 1.5% of itself below a close of 203, and is accepted. *)
Example near_is_relative_to_close :
  Qabs (203 - 200) / 200 == 15 # 1000 /\ near 203 (Fin 200) = true.
Proof. split; reflexivity. Qed.



(** ** RSI *)

Lemma where_gain (xs : list Q) :
  where_ (fun d => fgt d (Fin 0)) (diff xs) = map Fin (gains xs).
Proof.
  destruct xs as [|x0 rest]; [reflexivity|].
  unfold where_, diff, gains. cbn [map fgt flt]. f_equal.
  generalize (x0 :: rest) as ps. induction rest as [|x rest IH]; intros ps.
  - reflexivity.
  - destruct ps as [|p ps]; [reflexivity|]. cbn [zip_with map].
    rewrite IH. f_equal. cbn [fgt flt]. now destruct (Qlt_bool 0 (x - p)).
Qed.

Lemma where_loss (xs : list Q) :
  map fneg (where_ (fun d => flt d (Fin 0)) (diff xs)) = map Fin (losses xs).
Proof.
  destruct xs as [|x0 rest]; [reflexivity|].
  unfold where_, diff, losses. cbn [map flt fneg]. f_equal.
  generalize (x0 :: rest) as ps. induction rest as [|x rest IH]; intros ps.
  - reflexivity.
  - destruct ps as [|p ps]; [reflexivity|]. cbn [zip_with map].
    rewrite IH. f_equal. cbn [flt]. now destruct (Qlt_bool (x - p) 0).
Qed.

Lemma length_gains (xs : list Q) : length (gains xs) = length xs.
Proof.
  destruct xs as [|x xs]; [reflexivity|]. unfold gains.
  cbn [length]. rewrite length_zip_with. cbn [length]. lia.
Qed.

Lemma length_losses (xs : list Q) : length (losses xs) = length xs.
Proof.
  destruct xs as [|x xs]; [reflexivity|]. unfold losses.
  cbn [length]. rewrite length_zip_with. cbn [length]. lia.
Qed.

Lemma foldl_fadd_Fin (a : Q) (qs : list Q) :
  foldl fadd (Fin a) (map Fin qs) = Fin (foldl Qplus a qs).
Proof.
  revert a. induction qs as [|q qs IH]; intros a; [reflexivity|].
  cbn [map foldl fadd]. apply IH.
Qed.

Lemma fsum_Fin (qs : list Q) : fsum (map Fin qs) = Fin (qsum qs).
Proof. apply foldl_fadd_Fin. Qed.

Lemma rolling_mean_lookup (w : nat) (qs : list Q) (i : nat) :
  (i < length qs)%nat ->
  rolling_mean w (map Fin qs) !! i =
  Some (if (i + 1 <? w)%nat then NaN
        else fdiv (Fin (qsum (take w (drop (i + 1 - w) qs))))
                  (Fin (inject_Z (Z.of_nat w)))).
Proof.
  intros Hi. unfold rolling_mean. rewrite list_lookup_imap.
  destruct (lookup_lt_is_Some_2 (map Fin qs) i) as [x Hx];
    [now rewrite length_map|].
  rewrite Hx. cbn [fmap option_fmap option_map]. f_equal.
  destruct (i + 1 <? w)%nat; [reflexivity|].
  now rewrite skipn_map, firstn_map, fsum_Fin.
Qed.

(** Sums of non-negative rationals. *)
Lemma foldl_Qplus_shift (a : Q) (qs : list Q) :
  foldl Qplus a qs == a + qsum qs.
Proof.
  unfold qsum. revert a. induction qs as [|q qs IH]; intros a; cbn [foldl].
  - lra.
  - rewrite (IH (a + q)), (IH (0 + q)). lra.
Qed.

Lemma qsum_cons (q : Q) (qs : list Q) : qsum (q :: qs) == q + qsum qs.
Proof.
  unfold qsum at 1. cbn [foldl]. rewrite foldl_Qplus_shift. lra.
Qed.

Lemma qsum_nonneg (qs : list Q) :
  (forall q, In q qs -> 0 <= q) -> 0 <= qsum qs.
Proof.
  induction qs as [|q qs IH]; intros H.
  - unfold qsum. cbn. lra.
  - rewrite qsum_cons.
    assert (0 <= q) by (apply H; now left).
    assert (0 <= qsum qs) by (apply IH; intros; apply H; now right).
    lra.
Qed.

Lemma qsum_pos (qs : list Q) :
  (forall q, In q qs -> 0 <= q) ->
  (exists q, In q qs /\ 0 < q) -> 0 < qsum qs.
Proof.
  induction qs as [|q qs IH]; intros H [x [Hin Hx]]; [destruct Hin|].
  rewrite qsum_cons.
  assert (0 <= q) by (apply H; now left).
  assert (0 <= qsum qs) by (apply qsum_nonneg; intros; apply H; now right).
  destruct Hin as [->|Hin]; [lra|].
  assert (0 < qsum qs) by (apply IH; [intros; apply H; now right | eauto]).
  lra.
Qed.

Lemma qsum_zero (qs : list Q) :
  (forall q, In q qs -> q == 0) -> qsum qs == 0.
Proof.
  induction qs as [|q qs IH]; intros H.
  - reflexivity.
  - rewrite qsum_cons, (H q) by now left.
    rewrite IH by (intros; apply H; now right). lra.
Qed.

Lemma lookup_gains (xs : list Q) (k : nat) (g : Q) :
  gains xs !! k = Some g ->
  (k = 0%nat /\ g = 0)
  \/ exists k' p c,
       k = S k' /\ xs !! k' = Some p /\ xs !! k = Some c
       /\ g = if Qlt_bool 0 (c - p) then c - p else 0.
Proof.
  destruct xs as [|x0 rest]; [discriminate|]. unfold gains.
  destruct k as [|k']; cbn [lookup list_lookup].
  - intros [= <-]. now left.
  - intros H. right.
    apply lookup_zip_with_Some in H as (c & p & -> & Hc & Hp).
    exists k', p, c. auto.
Qed.

Lemma lookup_losses (xs : list Q) (k : nat) (l : Q) :
  losses xs !! k = Some l ->
  (k = 0%nat /\ l = - 0)
  \/ exists k' p c,
       k = S k' /\ xs !! k' = Some p /\ xs !! k = Some c
       /\ l = - (if Qlt_bool (c - p) 0 then c - p else 0).
Proof.
  destruct xs as [|x0 rest]; [discriminate|]. unfold losses.
  destruct k as [|k']; cbn [lookup list_lookup].
  - intros [= <-]. now left.
  - intros H. right.
    apply lookup_zip_with_Some in H as (c & p & -> & Hc & Hp).
    exists k', p, c. auto.
Qed.

Lemma window_elem (qs : list Q) (i : nat) (w : Q) :
  (13 <= i)%nat ->
  In w (take 14 (drop (i + 1 - 14) qs)) <->
  exists k, (i - 13 <= k <= i)%nat /\ qs !! k = Some w.
Proof.
  intros Hi. rewrite <- list_elem_of_In, list_elem_of_lookup.
  replace (i + 1 - 14)%nat with (i - 13)%nat by lia. split.
  - intros [t Ht]. rewrite lookup_take in Ht.
    destruct (decide (t < 14)%nat) as [Hlt|]; [|discriminate].
    rewrite lookup_drop in Ht. exists (i - 13 + t)%nat. split; [lia | exact Ht].
  - intros (k & Hk & Hw). exists (k - (i - 13))%nat.
    rewrite lookup_take. destruct (decide (k - (i - 13) < 14)%nat); [|lia].
    rewrite lookup_drop. now replace (i - 13 + (k - (i - 13)))%nat with k by lia.
Qed.

Lemma Qdiv_14 (a : Q) : a / 14 == a * (1 # 14).
Proof. reflexivity. Qed.

(** The value of the RSI formula on a window whose gains sum to [sg] and
    whose losses sum to [sl]. *)
Lemma rsi_formula (sg sl : Q) :
  0 <= sg -> 0 <= sl ->
  let r := fsub (Fin 100)
             (fdiv (Fin 100)
                (fadd (Fin 1) (fdiv (fdiv (Fin sg) (Fin 14))
                                    (fdiv (Fin sl) (Fin 14))))) in
  (0 < sl -> exists q, r = Fin q /\ 0 <= q /\ q < 100)
  /\ (sl == 0 -> 0 < sg -> exists q, r = Fin q /\ q == 100)
  /\ (sl == 0 -> sg == 0 -> r = NaN).
Proof.
  intros Hg Hl. cbn zeta.
  change (fdiv (Fin sg) (Fin 14)) with (Fin (sg / 14)).
  change (fdiv (Fin sl) (Fin 14)) with (Fin (sl / 14)).
  pose proof (Qdiv_14 sg) as Eg. pose proof (Qdiv_14 sl) as El.
  cbn [fdiv]. split; [|split].
  - intros Hpos.
    destruct (Qeq_bool (sl / 14) 0) eqn:E; [apply Qeq_bool_iff in E; lra|].
    cbn [fadd fdiv].
    assert (Hrs : 0 <= sg / 14 / (sl / 14))
      by (apply Qle_shift_div_l; lra).
    destruct (Qeq_bool (1 + sg / 14 / (sl / 14)) 0) eqn:E1;
      [apply Qeq_bool_iff in E1; lra|].
    cbn [fsub fneg fadd]. eexists. split; [reflexivity|].
    assert (0 < 100 / (1 + sg / 14 / (sl / 14)))
      by (apply Qlt_shift_div_l; lra).
    assert (100 / (1 + sg / 14 / (sl / 14)) <= 100)
      by (apply Qle_shift_div_r; lra).
    split; lra.
  - intros Hz Hpos.
    destruct (Qeq_bool (sl / 14) 0) eqn:E;
      [|apply Qeq_bool_false in E; exfalso; apply E; lra].
    destruct (Qeq_bool (sg / 14) 0) eqn:E1; [apply Qeq_bool_iff in E1; lra|].
    rewrite inf_of_sign_nonneg by lra.
    cbn [fadd fdiv fsub fneg]. eexists. split; [reflexivity|]. lra.
  - intros Hz Hgz.
    destruct (Qeq_bool (sl / 14) 0) eqn:E;
      [|apply Qeq_bool_false in E; exfalso; apply E; lra].
    destruct (Qeq_bool (sg / 14) 0) eqn:E1;
      [|apply Qeq_bool_false in E1; exfalso; apply E1; lra].
    reflexivity.
Qed.

Lemma gains_lookup_S (xs : list Q) (k' : nat) (p c : Q) :
  xs !! k' = Some p -> xs !! S k' = Some c ->
  gains xs !! S k' = Some (if Qlt_bool 0 (c - p) then c - p else 0).
Proof.
  destruct xs as [|x0 rest]; [discriminate|]. intros Hp Hc.
  unfold gains. cbn [lookup list_lookup] in *.
  apply lookup_zip_with_Some. eauto.
Qed.

Lemma losses_lookup_S (xs : list Q) (k' : nat) (p c : Q) :
  xs !! k' = Some p -> xs !! S k' = Some c ->
  losses xs !! S k' = Some (- (if Qlt_bool (c - p) 0 then c - p else 0)).
Proof.
  destruct xs as [|x0 rest]; [discriminate|]. intros Hp Hc.
  unfold losses. cbn [lookup list_lookup] in *.
  apply lookup_zip_with_Some. eauto.
Qed.

Lemma lookup_closes (df : list candle) (k : nat) (q : Q) :
  map close df !! k = Some q <-> exists c, df !! k = Some c /\ q = close c.
Proof.
  rewrite map_fmap, list_lookup_fmap, fmap_Some. split; intros (c & ? & ?); eauto.
Qed.

Lemma gains_nonneg (xs : list Q) (g : Q) : In g (gains xs) -> 0 <= g.
Proof.
  rewrite <- list_elem_of_In, list_elem_of_lookup. intros [k Hk].
  apply lookup_gains in Hk as [[_ ->]|(k' & p & c & _ & _ & _ & ->)]; [lra|].
  destruct (Qlt_bool 0 (c - p)) eqn:E; [apply Qlt_bool_iff in E|]; lra.
Qed.

Lemma losses_nonneg (xs : list Q) (l : Q) : In l (losses xs) -> 0 <= l.
Proof.
  rewrite <- list_elem_of_In, list_elem_of_lookup. intros [k Hk].
  apply lookup_losses in Hk as [[_ ->]|(k' & p & c & _ & _ & _ & ->)]; [lra|].
  destruct (Qlt_bool (c - p) 0) eqn:E; [apply Qlt_bool_iff in E|]; lra.
Qed.

Lemma window_incl (qs : list Q) (i : nat) (w : Q) :
  (13 <= i)%nat -> In w (take 14 (drop (i + 1 - 14) qs)) -> In w qs.
Proof.
  intros Hi Hw. apply window_elem in Hw as (k & _ & Hk); [|exact Hi].
  apply list_elem_of_In, list_elem_of_lookup. eauto.
Qed.

Section Window.

Variable df : list candle.
Variable i : nat.
Hypothesis Hi : (13 <= i)%nat.

Let lwin := take 14 (drop (i + 1 - 14) (losses (map close df))).
Let gwin := take 14 (drop (i + 1 - 14) (gains (map close df))).

Lemma loss_window_pos :
  (exists k, rsi_window i k /\ falls df k) -> 0 < qsum lwin.
Proof.
  intros (k & Hk & k' & p & c & -> & Hp & Hc & Hlt).
  apply qsum_pos.
  - intros w Hw. apply (losses_nonneg (map close df)).
    now apply (window_incl _ i).
  - exists (- (close c - close p)). split; [|lra].
    apply window_elem; [exact Hi|]. exists (S k'). split; [exact Hk|].
    rewrite (losses_lookup_S _ k' (close p) (close c))
      by (apply lookup_closes; eauto).
    assert (E : Qlt_bool (close c - close p) 0 = true)
      by (apply Qlt_bool_iff; lra).
    now rewrite E.
Qed.

Lemma loss_window_zero :
  (forall k, rsi_window i k -> ~ falls df k) -> qsum lwin == 0.
Proof.
  intros Hno. apply qsum_zero. intros w Hw.
  apply window_elem in Hw as (k & Hk & Hw); [|exact Hi].
  apply lookup_losses in Hw as [[_ ->]|(k' & p & c & -> & Hp & Hc & ->)];
    [lra|].
  destruct (Qlt_bool (c - p) 0) eqn:E; [|lra].
  exfalso. apply (Hno (S k') Hk).
  apply lookup_closes in Hp as (cp & Hp & ->).
  apply lookup_closes in Hc as (cc & Hc & ->).
  apply Qlt_bool_iff in E. exists k', cp, cc. repeat split; auto. lra.
Qed.

Lemma gain_window_nonneg : 0 <= qsum gwin.
Proof.
  apply qsum_nonneg. intros w Hw. apply (gains_nonneg (map close df)).
  now apply (window_incl _ i).
Qed.

Lemma loss_window_nonneg : 0 <= qsum lwin.
Proof.
  apply qsum_nonneg. intros w Hw. apply (losses_nonneg (map close df)).
  now apply (window_incl _ i).
Qed.

Lemma gain_window_pos :
  (exists k, rsi_window i k /\ rises df k) -> 0 < qsum gwin.
Proof.
  intros (k & Hk & k' & p & c & -> & Hp & Hc & Hlt).
  apply qsum_pos.
  - intros w Hw. apply (gains_nonneg (map close df)).
    now apply (window_incl _ i).
  - exists (close c - close p). split; [|lra].
    apply window_elem; [exact Hi|]. exists (S k'). split; [exact Hk|].
    rewrite (gains_lookup_S _ k' (close p) (close c))
      by (apply lookup_closes; eauto).
    assert (E : Qlt_bool 0 (close c - close p) = true)
      by (apply Qlt_bool_iff; lra).
    now rewrite E.
Qed.

Lemma gain_window_zero :
  (forall k, rsi_window i k -> ~ rises df k) -> qsum gwin == 0.
Proof.
  intros Hno. apply qsum_zero. intros w Hw.
  apply window_elem in Hw as (k & Hk & Hw); [|exact Hi].
  apply lookup_gains in Hw as [[_ ->]|(k' & p & c & -> & Hp & Hc & ->)];
    [lra|].
  destruct (Qlt_bool 0 (c - p)) eqn:E; [|lra].
  exfalso. apply (Hno (S k') Hk).
  apply lookup_closes in Hp as (cp & Hp & ->).
  apply lookup_closes in Hc as (cc & Hc & ->).
  apply Qlt_bool_iff in E. exists k', cp, cc. repeat split; auto. lra.
Qed.

End Window.

Lemma calculate_rsi_lookup (df : list candle) (i : nat) :
  (i < length df)%nat ->
  calculate_rsi df 14 !! i =
  Some (if (i + 1 <? 14)%nat then NaN
        else fsub (Fin 100)
               (fdiv (Fin 100)
                  (fadd (Fin 1)
                     (fdiv
                        (fdiv (Fin (qsum (take 14 (drop (i + 1 - 14)
                                                     (gains (map close df))))))
                              (Fin 14))
                        (fdiv (Fin (qsum (take 14 (drop (i + 1 - 14)
                                                     (losses (map close df))))))
                              (Fin 14)))))).
Proof.
  intros Hlen. unfold calculate_rsi.
  rewrite where_gain, where_loss, map_fmap, list_lookup_fmap, lookup_zip_with.
  rewrite !rolling_mean_lookup
    by (rewrite ?length_gains, ?length_losses, length_map; exact Hlen).
  cbn [mbind option_bind fmap option_fmap option_map].
  destruct (i + 1 <? 14)%nat; reflexivity.
Qed.




(** ** Alert cache and scan loop *)

Lemma alert_key_hour_inj (symbol t h1 h2 : string) :
  alert_key symbol t h1 = alert_key symbol t h2 -> h1 = h2.
Proof.
  unfold alert_key. intros H.
  apply String.app_inj in H. now apply String.app_inj in H.
Qed.

Section MonitorProperties.

Variable format_telegram_alert : setup -> string -> string.
Variable error_msg : string.
Variable post : string -> delivery.

Local Abbreviation once := (alert_once format_telegram_alert post).
Local Abbreviation visit_one := (visit_symbol format_telegram_alert post).
Local Abbreviation scan := (scan_symbols format_telegram_alert post).
Local Abbreviation pass := (monitor_pass format_telegram_alert error_msg post).
Local Abbreviation run := (monitor format_telegram_alert error_msg post).
Local Abbreviation no_reset :=
  (no_reset format_telegram_alert error_msg post).

(** The check of the cache and the recording of the key are one step:
    the call either changes nothing, or hands one message over and
    records the key. *)
Lemma alert_once_cases (s : setup) (trade_type key : string) (st : state) :
  (signal s = true /\ last_alerts st !! key = None
   /\ once s trade_type key st =
      {| last_alerts := <[key := true]> (last_alerts st);
         outbox := outbox st
                   ++ [Sent (Some key) (format_telegram_alert s trade_type)
                            (send_message post
                               (format_telegram_alert s trade_type))] |})
  \/ ((signal s = false \/ is_Some (last_alerts st !! key))
      /\ once s trade_type key st = st).
Proof.
  unfold alert_once. destruct (signal s); [|right; auto].
  destruct (last_alerts st !! key) eqn:E; [right; eauto | left; auto].
Qed.

Lemma alerts_for_snoc (k : string) (m : gmap string bool) (out : list sent)
    (key text : string) (res : option string) :
  alerts_for k (State m (out ++ [Sent (Some key) text res])) =
  (if decide (key = k) then S (alerts_for k (State m out))
   else alerts_for k (State m out)).
Proof.
  unfold alerts_for. cbn [outbox].
  rewrite filter_app, length_app, filter_cons, filter_nil. cbn [sent_key].
  destruct (decide (key = k)) as [->|Hne].
  - destruct (decide (Some k = Some k)); [cbn; lia | congruence].
  - destruct (decide (Some key = Some k)); [congruence | cbn; lia].
Qed.

(** Effect of one alert block on a key [k] that is being followed: a
    recorded key stays as it is and gets no further alert; a key that is
    not recorded gets exactly one alert if the block fires for it. *)
Lemma alert_once_tracked (k : string) (s : setup) (trade_type key : string)
    (st : state) :
  (forall b, last_alerts st !! k = Some b ->
     last_alerts (once s trade_type key st) !! k = Some b
     /\ alerts_for k (once s trade_type key st) = alerts_for k st)
  /\ (last_alerts st !! k = None ->
      if signal s && bool_decide (key = k)
      then last_alerts (once s trade_type key st) !! k = Some true
           /\ alerts_for k (once s trade_type key st)
              = S (alerts_for k st)
      else last_alerts (once s trade_type key st) !! k = None
           /\ alerts_for k (once s trade_type key st)
              = alerts_for k st).
Proof.
  destruct st as [m out].
  destruct (alert_once_cases s trade_type key (State m out))
    as [(Hs & Hnone & ->)|(Hcase & ->)]; cbn [last_alerts] in *.
  - rewrite alerts_for_snoc, Hs. cbn [andb]. split.
    + intros b Hk. destruct (decide (key = k)) as [->|Hne]; [congruence|].
      now rewrite lookup_insert_ne.
    + intros Hk. destruct (decide (key = k)) as [->|Hne].
      * rewrite bool_decide_eq_true_2 by reflexivity.
        now rewrite lookup_insert_eq.
      * rewrite bool_decide_eq_false_2 by assumption.
        now rewrite lookup_insert_ne.
  - split; [auto|]. intros Hk.
    destruct (signal s && bool_decide (key = k)) eqn:E; [|auto].
    apply andb_true_iff in E as [Hs Hkey].
    apply bool_decide_eq_true_1 in Hkey as ->.
    destruct Hcase as [Hf|Hsome]; [congruence|].
    rewrite Hk in Hsome. now destruct Hsome.
Qed.

Lemma alert_once_outbox (s : setup) (trade_type key : string) (st : state) :
  exists new,
    outbox (once s trade_type key st) = outbox st ++ new
    /\ Forall (fun e => sent_result e = send_message post (sent_text e)) new.
Proof.
  destruct (alert_once_cases s trade_type key st)
    as [(_ & _ & ->)|(_ & ->)].
  - eexists. split; [reflexivity|]. repeat constructor.
  - exists []. split; [now rewrite app_nil_r | constructor].
Qed.

Lemma alert_once_size (s : setup) (trade_type key : string) (st : state) :
  (size (last_alerts st)
   <= size (last_alerts (once s trade_type key st)))%nat.
Proof.
  destruct (alert_once_cases s trade_type key st)
    as [(_ & Hn & ->)|(_ & ->)]; [|lia].
  cbn [last_alerts]. rewrite map_size_insert_None by exact Hn. lia.
Qed.

(** A visit never raises. *)
Lemma visit_symbol_completed (v : visit) (st : state) :
  exists buy_setup sell_setup,
    setup_of BUY v = Some buy_setup /\ setup_of SELL v = Some sell_setup
    /\ visit_one v st =
       Completed
         (once sell_setup "VENDA" (key_of SELL v)
            (once buy_setup "COMPRA" (key_of BUY v) st)).
Proof.
  destruct (check_buy_setup_total (v_symbol v) (buy_klines v) (buy_now v))
    as [b Hb].
  destruct (check_sell_setup_total (v_symbol v) (sell_klines v) (sell_now v))
    as [s Hs].
  exists b, s. unfold visit_symbol, setup_of. now rewrite Hb, Hs.
Qed.

Lemma visit_symbol_tracked (k : string) (v : visit) (st : state) :
  exists st',
    visit_one v st = Completed st'
    /\ (forall b, last_alerts st !! k = Some b ->
        last_alerts st' !! k = Some b /\ alerts_for k st' = alerts_for k st)
    /\ (last_alerts st !! k = None ->
        if fires_key k v
        then last_alerts st' !! k = Some true
             /\ alerts_for k st' = S (alerts_for k st)
        else last_alerts st' !! k = None
             /\ alerts_for k st' = alerts_for k st).
Proof.
  destruct (visit_symbol_completed v st) as (b & s & Hb & Hs & ->).
  eexists. split; [reflexivity|].
  pose proof (alert_once_tracked k b "COMPRA" (key_of BUY v) st) as [B1 B2].
  pose proof (alert_once_tracked k s "VENDA" (key_of SELL v)
                (once b "COMPRA" (key_of BUY v) st)) as [S1 S2].
  unfold fires_key, fires. rewrite Hb, Hs. split.
  - intros x Hk. destruct (B1 x Hk) as [Hk1 E1].
    destruct (S1 x Hk1) as [Hk2 E2]. split; [exact Hk2 | congruence].
  - intros Hk. specialize (B2 Hk).
    destruct (signal b && bool_decide (key_of BUY v = k)); cbn [orb].
    + destruct B2 as [Hk1 E1]. destruct (S1 true Hk1) as [Hk2 E2].
      split; [exact Hk2 | congruence].
    + destruct B2 as [Hk1 E1]. specialize (S2 Hk1).
      destruct (signal s && bool_decide (key_of SELL v = k));
        destruct S2 as [Hk2 E2]; split; congruence.
Qed.

Lemma scan_symbols_tracked (k : string) (visits : list visit) (st : state) :
  exists st',
    scan visits st = Completed st'
    /\ (forall b, last_alerts st !! k = Some b ->
        last_alerts st' !! k = Some b /\ alerts_for k st' = alerts_for k st)
    /\ (last_alerts st !! k = None ->
        if existsb (fires_key k) visits
        then last_alerts st' !! k = Some true
             /\ alerts_for k st' = S (alerts_for k st)
        else last_alerts st' !! k = None
             /\ alerts_for k st' = alerts_for k st).
Proof.
  revert st. induction visits as [|v rest IH]; intros st.
  - exists st. cbn. auto.
  - destruct (visit_symbol_tracked k v st) as (st1 & Hv & V1 & V2).
    destruct (IH st1) as (st2 & Hr & R1 & R2).
    exists st2. cbn [scan_symbols existsb]. rewrite Hv.
    split; [exact Hr|]. split.
    + intros x Hk. destruct (V1 x Hk) as [Hk1 E1].
      destruct (R1 x Hk1) as [Hk2 E2]. split; [exact Hk2 | congruence].
    + intros Hk. specialize (V2 Hk). destruct (fires_key k v); cbn [orb].
      * destruct V2 as [Hk1 E1]. destruct (R1 true Hk1) as [Hk2 E2].
        split; [exact Hk2 | congruence].
      * destruct V2 as [Hk1 E1]. specialize (R2 Hk1).
        destruct (existsb (fires_key k) rest);
          destruct R2 as [Hk2 E2]; split; congruence.
Qed.

Lemma visit_symbol_outbox (v : visit) (st : state) :
  exists st' new,
    visit_one v st = Completed st'
    /\ outbox st' = outbox st ++ new
    /\ Forall (fun e => sent_result e = send_message post (sent_text e)) new.
Proof.
  destruct (visit_symbol_completed v st) as (b & s & _ & _ & ->).
  destruct (alert_once_outbox b "COMPRA" (key_of BUY v) st)
    as (new1 & E1 & F1).
  destruct (alert_once_outbox s "VENDA" (key_of SELL v)
              (once b "COMPRA" (key_of BUY v) st)) as (new2 & E2 & F2).
  eexists. exists (new1 ++ new2). split; [reflexivity|].
  rewrite E2, E1, app_assoc. split; [reflexivity|].
  apply Forall_app. auto.
Qed.

Lemma scan_symbols_size (visits : list visit) (st : state) :
  exists st',
    scan visits st = Completed st'
    /\ (size (last_alerts st) <= size (last_alerts st'))%nat.
Proof.
  revert st. induction visits as [|v rest IH]; intros st.
  - exists st. split; [reflexivity | lia].
  - destruct (visit_symbol_completed v st) as (b & s & _ & _ & Hv).
    cbn [scan_symbols]. rewrite Hv.
    destruct (IH (once s "VENDA" (key_of SELL v)
                    (once b "COMPRA" (key_of BUY v) st)))
      as (st' & Hr & Hsize).
    exists st'. split; [exact Hr|].
    pose proof (alert_once_size b "COMPRA" (key_of BUY v) st).
    pose proof (alert_once_size s "VENDA" (key_of SELL v)
                  (once b "COMPRA" (key_of BUY v) st)).
    lia.
Qed.

Lemma fired_in_existsb (symbol : string) (d : direction) (hour : string)
    (passes : list (list visit)) :
  fired_in symbol d hour passes ->
  existsb (existsb (fires_key (alert_key symbol (tag d) hour))) passes = true.
Proof.
  intros (visits & v & Hp & Hv & <- & <- & Hf).
  apply existsb_exists. exists visits. split; [exact Hp|].
  apply existsb_exists. exists v. split; [exact Hv|].
  unfold fires_key. apply orb_true_iff.
  destruct d; [left | right]; rewrite Hf;
    now rewrite bool_decide_eq_true_2 by reflexivity.
Qed.

Lemma monitor_pass_no_reset (visits : list visit) (st st' : state) :
  scan visits st = Completed st' ->
  (size (last_alerts st') <= 100)%nat ->
  pass visits st = st'.
Proof.
  intros Hs Hsize. unfold monitor_pass. rewrite Hs.
  destruct (Nat.ltb_spec 100 (size (last_alerts st'))); [lia | reflexivity].
Qed.

Lemma monitor_tracked (k : string) (passes : list (list visit)) (st : state) :
  no_reset passes st ->
  (forall b, last_alerts st !! k = Some b ->
     last_alerts (run passes st) !! k = Some b
     /\ alerts_for k (run passes st) = alerts_for k st)
  /\ (last_alerts st !! k = None ->
      if existsb (existsb (fires_key k)) passes
      then last_alerts (run passes st) !! k = Some true
           /\ alerts_for k (run passes st) = S (alerts_for k st)
      else last_alerts (run passes st) !! k = None
           /\ alerts_for k (run passes st) = alerts_for k st).
Proof.
  revert st. induction passes as [|visits rest IH]; intros st Hno.
  - cbn. auto.
  - destruct Hno as [Hsize Hrest].
    destruct (scan_symbols_tracked k visits st) as (st1 & Hs & V1 & V2).
    rewrite Hs in Hsize.
    pose proof (monitor_pass_no_reset visits st st1 Hs Hsize) as Hpass.
    rewrite Hpass in Hrest. destruct (IH st1 Hrest) as [R1 R2].
    unfold monitor in *. cbn [foldl existsb]. rewrite Hpass. split.
    + intros b Hk. destruct (V1 b Hk) as [Hk1 E1].
      destruct (R1 b Hk1) as [Hk2 E2]. split; [exact Hk2 | congruence].
    + intros Hk. specialize (V2 Hk).
      destruct (existsb (fires_key k) visits); cbn [orb].
      * destruct V2 as [Hk1 E1]. destruct (R1 true Hk1) as [Hk2 E2].
        split; [exact Hk2 | congruence].
      * destruct V2 as [Hk1 E1]. specialize (R2 Hk1).
        destruct (existsb (existsb (fires_key k)) rest);
          destruct R2 as [Hk2 E2]; split; congruence.
Qed.


(** C5 (amended). The cache is emptied as a whole, and only at the end
    of a complete pass over the symbols, when it then holds more than 100
    keys.  During the pass nothing is removed, so the cache may grow past
    100 and later insertions of the same pass are checked against all the
    keys recorded so far; after every turn of the loop it holds at most
    100 keys. *)
Theorem cache_reset_at_end_of_pass (visits : list visit) (st : state) :
  exists st1,
    scan visits st = Completed st1
    /\ (forall k b, last_alerts st !! k = Some b ->
                    last_alerts st1 !! k = Some b)
    /\ (size (last_alerts st) <= size (last_alerts st1))%nat
    /\ ((100 < size (last_alerts st1))%nat ->
        last_alerts (pass visits st) = ∅
        /\ outbox (pass visits st) = outbox st1)
    /\ ((size (last_alerts st1) <= 100)%nat -> pass visits st = st1)
    /\ (size (last_alerts (pass visits st)) <= 100)%nat.
Proof.
  destruct (scan_symbols_size visits st) as (st1 & Hs & Hsize).
  exists st1. split; [exact Hs|]. split.
  { intros k b Hk.
    destruct (scan_symbols_tracked k visits st) as (st1' & Hs' & T & _).
    rewrite Hs in Hs'. injection Hs' as <-. now apply T. }
  split; [exact Hsize|].
  unfold monitor_pass. rewrite Hs.
  destruct (Nat.ltb_spec 100 (size (last_alerts st1))) as [Hbig|Hsmall].
  - cbn [last_alerts outbox]. rewrite map_size_empty.
    repeat split; auto; lia.
  - repeat split; auto; lia.
Qed.


End MonitorProperties.



Lemma cache_reset_at_end_of_pass_witness :
  size (last_alerts twelve_hours_run) = 96%nat
  /\ last_alerts (monitor_pass plain_format "error" always_delivered
                    (bullish_pass "2024010112") twelve_hours_run) = ∅
  /\ size (last_alerts
             (monitor_pass plain_format "error" always_delivered
                [bullish_visit "2024010112" "BTCUSDT"] initial_state))
     = 1%nat.
Proof.
  split; [vm_compute; reflexivity|]. split.
  - destruct (cache_reset_at_end_of_pass plain_format "error" always_delivered
                (bullish_pass "2024010112") twelve_hours_run)
      as (st1 & Hs & _ & _ & Hbig & _).
    apply Hbig.
    assert (E : size (last_alerts
                        (outcome_state
                           (scan_symbols plain_format always_delivered
                              (bullish_pass "2024010112") twelve_hours_run)))
                = 104%nat) by (vm_compute; reflexivity).
    rewrite Hs in E. cbn [outcome_state] in E. lia.
  - destruct (cache_reset_at_end_of_pass plain_format "error" always_delivered
                [bullish_visit "2024010112" "BTCUSDT"] initial_state)
      as (st1 & Hs & _ & _ & _ & Hsmall & _).
    assert (E : size (last_alerts
                        (outcome_state
                           (scan_symbols plain_format always_delivered
                              [bullish_visit "2024010112" "BTCUSDT"]
                              initial_state)))
                = 1%nat) by (vm_compute; reflexivity).
    rewrite Hs in E. cbn [outcome_state] in E.
    rewrite Hsmall by lia. exact E.
Defined.

(** In the first turn of the thirteenth hour the cache holds 96 keys at
    the start; the fifth symbol brings it to 101 keys and it is not
    emptied; the key of the sixth symbol, the 102nd insertion, is looked
    up in those 101 keys; the cache is emptied only after the eighth
    symbol. *)
Lemma cache_not_reset_inside_a_pass :
  size (last_alerts twelve_hours_run) = 96%nat
  /\ size (last_alerts
             (outcome_state
                (scan_symbols plain_format always_delivered
                   (take 5 (bullish_pass "2024010112")) twelve_hours_run)))
     = 101%nat
  /\ size (last_alerts
             (outcome_state
                (scan_symbols plain_format always_delivered
                   (take 6 (bullish_pass "2024010112")) twelve_hours_run)))
     = 102%nat
  /\ size (last_alerts
             (outcome_state
                (scan_symbols plain_format always_delivered
                   (bullish_pass "2024010112") twelve_hours_run)))
     = 104%nat
  /\ size (last_alerts
             (monitor_pass plain_format "error" always_delivered
                (bullish_pass "2024010112") twelve_hours_run))
     = 0%nat.
Proof. vm_compute. repeat split. Qed.



(** * Further properties of the indicators *)

Lemma ewm_from_alpha_one (a prev : Q) (xs : list Q) :
  a == 1 -> Forall2 Qeq (ewm_from a prev xs) xs.
Proof.
  intros Ha. revert prev. induction xs as [|x xs IH]; intros prev; cbn [ewm_from].
  - constructor.
  - constructor; [|apply IH]. rewrite Qred_correct, Ha. ring.
Qed.

(** X1. With period 1 the smoothing factor is 1 and the EMA column is
    the close column itself, value by value. *)
Theorem ema_period_one_is_close (df : list candle) :
  Forall2 Qeq (calculate_ema df 1) (map close df).
Proof.
  unfold calculate_ema, ewm_mean.
  destruct (map close df) as [|x0 rest]; constructor; [reflexivity|].
  apply ewm_from_alpha_one. reflexivity.
Qed.

Lemma ewm_from_bounded (a lo hi prev : Q) (xs : list Q) :
  0 <= a -> a <= 1 ->
  lo <= prev <= hi ->
  Forall (fun x => lo <= x <= hi) xs ->
  Forall (fun y => lo <= y <= hi) (ewm_from a prev xs).
Proof.
  intros Ha0 Ha1 Hprev Hxs. revert prev Hprev.
  induction Hxs as [|x xs Hx Hxs IH]; intros prev Hprev; cbn [ewm_from].
  - constructor.
  - assert (Hy : lo <= Qred ((1 - a) * prev + a * x) <= hi).
    { rewrite Qred_correct. split; nra. }
    constructor; [exact Hy | apply IH; exact Hy].
Qed.

Lemma smoothing_factor_range (period : Z) :
  (1 <= period)%Z ->
  0 <= 2 / (inject_Z period + 1) /\ 2 / (inject_Z period + 1) <= 1.
Proof.
  intros Hp. rewrite Zle_Qle in Hp.
  change (inject_Z 1) with 1 in Hp. split.
  - apply Qle_shift_div_l; lra.
  - apply Qle_shift_div_r; lra.
Qed.



Lemma vwap_from_bounded (lo hi accP accV : Q) (df : list candle) :
  0 <= accV ->
  lo * accV <= accP -> accP <= hi * accV ->
  Forall (fun c => 0 < volume c
                   /\ lo <= (high c + low c + close c) / 3 <= hi) df ->
  Forall (fun v => exists q, v = Fin q /\ lo <= q <= hi)
    (zip_with (fun a b => fdiv (Fin a) (Fin b))
       (cumsum_from accP
          (zip_with Qmult
             (map (fun c => (high c + low c + close c) / 3) df)
             (map volume df)))
       (cumsum_from accV (map volume df))).
Proof.
  intros HV Hlo Hhi Hdf. revert accP accV HV Hlo Hhi.
  induction Hdf as [|c df [Hv Htp] Hdf IH]; intros accP accV HV Hlo Hhi.
  - constructor.
  - cbn [map zip_with cumsum_from].
    set (tp := (high c + low c + close c) / 3) in *.
    pose proof (Qred_correct (accP + tp * volume c)) as EP.
    pose proof (Qred_correct (accV + volume c)) as EV.
    assert (HV' : 0 < Qred (accV + volume c)) by (rewrite EV; lra).
    assert (Hlo' : lo * Qred (accV + volume c) <= Qred (accP + tp * volume c))
      by (rewrite EP, EV; nra).
    assert (Hhi' : Qred (accP + tp * volume c) <= hi * Qred (accV + volume c))
      by (rewrite EP, EV; nra).
    constructor.
    + cbn [fdiv].
      destruct (Qeq_bool (Qred (accV + volume c)) 0) eqn:E;
        [apply Qeq_bool_iff in E; lra|].
      eexists. split; [reflexivity|]. split.
      * apply Qle_shift_div_l; assumption.
      * apply Qle_shift_div_r; assumption.
    + apply IH; [lra | assumption | assumption].
Qed.



Lemma vwap_from_zero_volume (accP accV : Q) (df : list candle) :
  accP == 0 -> accV == 0 ->
  Forall (fun c => volume c == 0) df ->
  Forall (fun v => v = NaN)
    (zip_with (fun a b => fdiv (Fin a) (Fin b))
       (cumsum_from accP
          (zip_with Qmult
             (map (fun c => (high c + low c + close c) / 3) df)
             (map volume df)))
       (cumsum_from accV (map volume df))).
Proof.
  intros HP HV Hdf. revert accP accV HP HV.
  induction Hdf as [|c df Hv Hdf IH]; intros accP accV HP HV.
  - constructor.
  - cbn [map zip_with cumsum_from].
    assert (EP : Qred (accP + (high c + low c + close c) / 3 * volume c) == 0)
      by (rewrite Qred_correct, HP, Hv; ring).
    assert (EV : Qred (accV + volume c) == 0)
      by (rewrite Qred_correct, HV, Hv; ring).
    constructor; [|now apply IH].
    cbn [fdiv]. apply Qeq_bool_iff in EP, EV. now rewrite EP, EV.
Qed.

Lemma iloc_elem {A : Type} (xs : list A) (i : Z) (x : A) :
  iloc xs i = Some x -> x ∈ xs.
Proof.
  unfold iloc. destruct (_ || _)%bool; [discriminate|].
  apply list_elem_of_lookup_2.
Qed.

Lemma lookup_closes_volume (df : list candle) (k : nat) (q : Q) :
  map volume df !! k = Some q -> exists c, df !! k = Some c /\ q = volume c.
Proof.
  rewrite map_fmap, list_lookup_fmap, fmap_Some. intros (c & ? & ?); eauto.
Qed.

Lemma constant_volume_not_increasing (df : list candle) (lookback : Z) :
  (forall a b, a ∈ df -> b ∈ df -> volume a == volume b) ->
  check_volume_increasing df lookback = false.
Proof.
  intros Hconst. apply not_true_is_false.
  rewrite check_volume_increasing_iff. intros [Hlen Hinc].
  destruct (lookup_lt_is_Some_2 (iloc_from (map volume df) (- lookback)) 0)
    as [a Ha]; [lia|].
  destruct (lookup_lt_is_Some_2 (iloc_from (map volume df) (- lookback)) 1)
    as [b Hb]; [lia|].
  pose proof (Hinc 0%nat a b Ha Hb) as Hlt.
  apply iloc_from_lookup in Ha as [i Ha], Hb as [j Hb].
  apply lookup_closes_volume in Ha as (ca & Ha & ->).
  apply lookup_closes_volume in Hb as (cb & Hb & ->).
  pose proof (Hconst ca cb (list_elem_of_lookup_2 _ _ _ Ha)
                (list_elem_of_lookup_2 _ _ _ Hb)). lra.
Qed.

Lemma all_checks_buy_volume (b : buy_checks) :
  volume_up b = false -> all_checks (Buy b) = false.
Proof. intros H. cbn [all_checks]. rewrite H. apply andb_false_r. Qed.

Lemma all_checks_buy_rsi (b : buy_checks) :
  rsi_range b = false -> all_checks (Buy b) = false.
Proof.
  intros H. cbn [all_checks]. rewrite H.
  now rewrite !andb_false_r.
Qed.

(** X4. On a frame without traded volume neither setup fires, whatever
    its length and prices: the volumes do not rise, and VWAP is 0/0, NaN,
    which is above nothing. *)
Theorem no_volume_no_signal (symbol : string) (df : list candle) (now : string) :
  Forall (fun c => volume c == 0) df ->
  (signal <$> check_buy_setup symbol df now) = Some false
  /\ (signal <$> check_sell_setup symbol df now) = Some false.
Proof.
  intros Hzero.
  destruct (Nat.lt_ge_cases (length df) 200) as [Hlen|Hlen].
  { unfold check_buy_setup, check_sell_setup.
    rewrite (short_frame df Hlen). split; reflexivity. }
  split.
  - destruct (buy_evaluated symbol df now Hlen)
      as (last & prev & e & _ & _ & -> & Hchecks & Hsig & _).
    cbn [fmap option_fmap option_map signal]. f_equal.
    rewrite Hsig, Hchecks. apply all_checks_buy_volume. cbn [volume_up].
    apply constant_volume_not_increasing. intros a b Ha Hb.
    rewrite Forall_forall in Hzero.
    rewrite (Hzero a Ha), (Hzero b Hb). reflexivity.
  - destruct (sell_evaluated symbol df now Hlen)
      as (last & e & Hlast & -> & Hchecks & Hsig & _).
    cbn [fmap option_fmap option_map signal]. f_equal.
    rewrite Hsig, Hchecks. cbn [all_checks vwap_above].
    apply iloc_add_indicators in Hlast as (_ & _ & _ & Hvwap & _).
    apply iloc_elem in Hvwap.
    assert (Hnan : Forall (fun v => v = NaN) (calculate_vwap df)).
    { unfold calculate_vwap, cumsum.
      apply vwap_from_zero_volume; [reflexivity | reflexivity | exact Hzero]. }
    rewrite Forall_forall in Hnan. rewrite (Hnan _ Hvwap).
    cbn [fgt flt]. now rewrite andb_false_r.
Qed.

Lemma no_volume_no_signal_witness :
  Forall (fun c => volume c == 0) (repeat (Candle 1 2 1 2 0) 200)
  /\ (signal <$> check_buy_setup "BTCUSDT" (repeat (Candle 1 2 1 2 0) 200)
                   "2024-01-01 00:00:00") = Some false
  /\ (signal <$> check_sell_setup "BTCUSDT" (repeat (Candle 1 2 1 2 0) 200)
                   "2024-01-01 00:00:00") = Some false.
Proof.
  assert (H : Forall (fun c => volume c == 0) (repeat (Candle 1 2 1 2 0) 200)).
  { apply Forall_forall. intros c Hc.
    apply list_elem_of_In, repeat_spec in Hc. subst. reflexivity. }
  split; [exact H|].
  apply (no_volume_no_signal "BTCUSDT" _ "2024-01-01 00:00:00" H).
Defined.

(** X5. Edge cases of the window [iloc[-lookback:]]: with [lookback = 0]
    the slice is the whole frame, not an empty window, so the check asks
    whether all volumes of the frame rise; with [lookback = 1] the answer
    is always false; a negative [lookback] drops that many rows from the
    start; a [lookback] of at least the length of the frame selects the
    whole frame. *)
Theorem volume_window_edge_cases (df : list candle) :
  iloc_from (map volume df) (- 0) = map volume df
  /\ (check_volume_increasing df 0 = true <->
      (2 <= length df)%nat /\ strictly_increasing (map volume df))
  /\ check_volume_increasing df 1 = false
  /\ (forall lookback,
        (lookback < 0)%Z ->
        iloc_from (map volume df) (- lookback)
        = drop (Z.to_nat (- lookback)) (map volume df))
  /\ (forall lookback,
        (Z.of_nat (length df) <= lookback)%Z ->
        iloc_from (map volume df) (- lookback) = map volume df).
Proof.
  assert (H0 : iloc_from (map volume df) (- 0) = map volume df).
  { unfold iloc_from. cbn. now rewrite Z.min_l by lia. }
  split; [exact H0|]. split.
  { rewrite check_volume_increasing_iff, H0, length_map. reflexivity. }
  split.
  { apply not_true_is_false. rewrite check_volume_increasing_iff.
    rewrite iloc_from_trailing by lia. rewrite length_drop. intros [H _].
    change (Z.to_nat 1) with 1%nat in H. lia. }
  split.
  - intros lookback Hneg. unfold iloc_from.
    destruct (- lookback <? 0)%Z eqn:E; [apply Z.ltb_lt in E; lia|].
    destruct (Z.min_spec (- lookback) (Z.of_nat (length (map volume df))))
      as [[_ ->]|[Hge ->]]; [reflexivity|].
    rewrite Nat2Z.id, !drop_ge; [reflexivity | lia | lia].
  - intros lookback Hbig. unfold iloc_from. rewrite length_map.
    destruct (- lookback <? 0)%Z eqn:E.
    + rewrite Z.max_r by lia. reflexivity.
    + apply Z.ltb_ge in E. rewrite Z.min_l by lia.
      replace (- lookback)%Z with 0%Z by lia. reflexivity.
Qed.

Lemma volume_window_edge_cases_witness :
  check_volume_increasing [flat 1 1; flat 1 2; flat 1 3; flat 1 4] 0 = true
  /\ iloc_from (map volume [flat 1 1; flat 1 2; flat 1 3; flat 1 4]) (- (-1))
     = [2; 3; 4].
Proof.
  destruct (volume_window_edge_cases [flat 1 1; flat 1 2; flat 1 3; flat 1 4])
    as (_ & Hzero & _ & Hneg & _).
  split.
  - apply Hzero. split; [cbn; lia|].
    intros i a b Ha Hb.
    destruct i as [|[|[|i]]]; cbn in Ha, Hb; try discriminate;
      injection Ha as <-; injection Hb as <-; reflexivity.
  - rewrite Hneg by lia. reflexivity.
Defined.

Lemma iloc_minus_one {A : Type} (xs : list A) (x : A) :
  iloc xs (-1) = Some x -> xs !! (length xs - 1)%nat = Some x.
Proof.
  unfold iloc. cbn [Z.ltb Z.compare].
  destruct (_ || _)%bool eqn:E; [discriminate|].
  apply orb_false_iff in E as [E1 E2]. apply Z.ltb_ge in E1.
  intros H. rewrite <- H. f_equal. lia.
Qed.

Lemma rsi_formula_no_gain (sg sl : Q) :
  sg == 0 -> 0 < sl ->
  exists q,
    fsub (Fin 100)
      (fdiv (Fin 100)
         (fadd (Fin 1) (fdiv (fdiv (Fin sg) (Fin 14))
                             (fdiv (Fin sl) (Fin 14))))) = Fin q
    /\ q == 0.
Proof.
  intros Hg Hl.
  change (fdiv (Fin sg) (Fin 14)) with (Fin (sg / 14)).
  change (fdiv (Fin sl) (Fin 14)) with (Fin (sl / 14)).
  pose proof (Qdiv_14 sl) as El. cbn [fdiv].
  destruct (Qeq_bool (sl / 14) 0) eqn:E; [apply Qeq_bool_iff in E; lra|].
  cbn [fadd fdiv].
  assert (Hrs : sg / 14 / (sl / 14) == 0)
    by (unfold Qdiv; rewrite Hg; ring).
  destruct (Qeq_bool (1 + sg / 14 / (sl / 14)) 0) eqn:E1;
    [apply Qeq_bool_iff in E1; lra|].
  cbn [fsub fneg fadd]. eexists. split; [reflexivity|].
  rewrite Hrs. reflexivity.
Qed.

(** X6. The long setup cannot fire unless the closes of the last RSI
    window both rise and fall somewhere: when no close of the window
    falls RSI is 100 or NaN, when none rises it is 0 or NaN, and both lie
    outside [40, 65]. *)
Theorem long_setup_needs_rise_and_fall
    (symbol : string) (df : list candle) (now : string) :
  (200 <= length df)%nat ->
  (forall k, rsi_window (length df - 1) k -> ~ falls df k)
  \/ (forall k, rsi_window (length df - 1) k -> ~ rises df k) ->
  (signal <$> check_buy_setup symbol df now) = Some false.
Proof.
  intros Hlen Hflat.
  destruct (buy_evaluated symbol df now Hlen)
    as (last & prev & e & Hlast & _ & -> & Hchecks & Hsig & _).
  cbn [fmap option_fmap option_map signal]. f_equal.
  rewrite Hsig, Hchecks. apply all_checks_buy_rsi. cbn [rsi_range].
  apply iloc_add_indicators in Hlast as (_ & _ & _ & _ & Hrsi).
  apply iloc_minus_one in Hrsi. rewrite length_calculate_rsi in Hrsi.
  rewrite calculate_rsi_lookup in Hrsi by lia.
  destruct (Nat.ltb_spec (length df - 1 + 1) 14) as [H|_]; [lia|].
  apply (inj Some) in Hrsi.
  assert (Hi : (13 <= length df - 1)%nat) by lia.
  pose proof (gain_window_nonneg df _ Hi) as Hg.
  pose proof (loss_window_nonneg df _ Hi) as Hl.
  pose proof (rsi_formula _ _ Hg Hl) as (Hfall & Hrise & Hnone).
  apply not_true_is_false. rewrite rsi_range_iff, <- Hrsi.
  destruct Hflat as [Hnf|Hnr].
  - pose proof (loss_window_zero df _ Hi Hnf) as Hz.
    destruct (Qlt_le_dec 0
                (qsum (take 14 (drop (length df - 1 + 1 - 14)
                                  (gains (map close df)))))) as [Hpos|Hle].
    + destruct (Hrise Hz Hpos) as (q & -> & Hq). cbn [rsi_between]. lra.
    + rewrite Hnone; [cbn [rsi_between]; tauto | exact Hz | lra].
  - pose proof (gain_window_zero df _ Hi Hnr) as Hz.
    destruct (Qlt_le_dec 0
                (qsum (take 14 (drop (length df - 1 + 1 - 14)
                                  (losses (map close df)))))) as [Hpos|Hle].
    + destruct (rsi_formula_no_gain _ _ Hz Hpos) as (q & -> & Hq).
      cbn [rsi_between]. lra.
    + rewrite Hnone; [cbn [rsi_between]; tauto | lra | exact Hz].
Qed.

Lemma long_setup_needs_rise_and_fall_witness :
  (200 <= length (repeat (flat 100 5) 200))%nat
  /\ (forall k, rsi_window (length (repeat (flat 100 5) 200) - 1) k ->
                ~ falls (repeat (flat 100 5) 200) k)
  /\ (signal <$> check_buy_setup "BTCUSDT" (repeat (flat 100 5) 200)
                   "2024-01-01 00:00:00") = Some false.
Proof.
  assert (Hlen : (200 <= length (repeat (flat 100 5) 200))%nat)
    by (rewrite repeat_length; lia).
  assert (Hnf : forall k, rsi_window (length (repeat (flat 100 5) 200) - 1) k ->
                          ~ falls (repeat (flat 100 5) 200) k).
  { intros k _ (k' & p & c & _ & Hp & Hc & Hlt).
    apply list_elem_of_lookup_2, list_elem_of_In, repeat_spec in Hp.
    apply list_elem_of_lookup_2, list_elem_of_In, repeat_spec in Hc.
    subst. revert Hlt. cbn. lra. }
  split; [exact Hlen|]. split; [exact Hnf|].
  apply (long_setup_needs_rise_and_fall "BTCUSDT" _ "2024-01-01 00:00:00"
           Hlen (or_introl Hnf)).
Defined.

Lemma fgt_iff (x : float) (c : Q) : fgt x (Fin c) = true <-> exceeds x c.
Proof.
  unfold fgt. destruct x as [v| | |]; cbn [flt exceeds].
  - apply Qlt_bool_iff.
  - tauto.
  - split; [discriminate | tauto].
  - split; [discriminate | tauto].
Qed.



(** X8. When both fetches of a visit return the same frame, the long and
    the short setup do not both fire: one needs the close above EMA-200,
    the other below it. *)
Theorem buy_and_sell_exclude_each_other (v : visit) :
  buy_klines v = sell_klines v ->
  fires BUY v && fires SELL v = false.
Proof.
  intros Hsame. unfold fires, setup_of. rewrite <- Hsame.
  destruct (Nat.lt_ge_cases (length (buy_klines v)) 200) as [Hlen|Hlen].
  { unfold check_buy_setup. now rewrite (short_frame _ Hlen). }
  destruct (buy_evaluated (v_symbol v) (buy_klines v) (buy_now v) Hlen)
    as (last & prev & eb & Hlast & _ & -> & Hbc & Hbs & _).
  destruct (sell_evaluated (v_symbol v) (buy_klines v) (sell_now v) Hlen)
    as (last' & es & Hlast' & -> & Hsc & Hss & _).
  rewrite Hlast in Hlast'. injection Hlast' as <-.
  cbn [signal]. rewrite Hbs, Hbc, Hss, Hsc.
  cbn [all_checks trend_up below_ema200].
  destruct (Qlt_bool (ema_200 last) (close (bar last))) eqn:Eb;
    [|reflexivity].
  destruct (Qlt_bool (close (bar last)) (ema_200 last)) eqn:Es;
    [|now rewrite andb_false_r].
  apply Qlt_bool_iff in Eb, Es. lra.
Qed.

Lemma buy_and_sell_exclude_each_other_witness :
  buy_klines (bullish_visit "2024010112" "BTCUSDT")
  = sell_klines (bullish_visit "2024010112" "BTCUSDT")
  /\ fires BUY (bullish_visit "2024010112" "BTCUSDT") = true
  /\ fires SELL (bullish_visit "2024010112" "BTCUSDT") = false.
Proof.
  assert (Hb : fires BUY (bullish_visit "2024010112" "BTCUSDT") = true)
    by (vm_compute; reflexivity).
  split; [reflexivity|]. split; [exact Hb|].
  pose proof (buy_and_sell_exclude_each_other
                (bullish_visit "2024010112" "BTCUSDT") eq_refl) as H.
  rewrite Hb in H. exact H.
Defined.



(** X10. Neither check raises on any frame, and each returns the
    insufficient-data result exactly when the frame has fewer than 200
    candles: the guard covers the accesses to rows -1 and -2. *)
Theorem setup_checks_never_raise
    (symbol : string) (df : list candle) (now : string) :
  exists b s,
    check_buy_setup symbol df now = Some b
    /\ check_sell_setup symbol df now = Some s
    /\ ((length df < 200)%nat <-> b = NoData "Dados insuficientes")
    /\ ((length df < 200)%nat <-> s = NoData "Dados insuficientes").
Proof.
  destruct (Nat.lt_ge_cases (length df) 200) as [Hlen|Hlen].
  - exists (NoData "Dados insuficientes"), (NoData "Dados insuficientes").
    unfold check_buy_setup, check_sell_setup. rewrite (short_frame df Hlen).
    repeat split; auto.
  - destruct (buy_evaluated symbol df now Hlen)
      as (? & ? & eb & _ & _ & Hb & _).
    destruct (sell_evaluated symbol df now Hlen) as (? & es & _ & Hs & _).
    exists (Evaluated eb), (Evaluated es).
    split; [exact Hb|]. split; [exact Hs|].
    split; (split; [lia | discriminate]).
Qed.

(** * Further properties of the alert keys and of the scan loop *)

Lemma list_ascii_of_string_app (s1 s2 : string) :
  String.list_ascii_of_string (s1 +:+ s2)
  = String.list_ascii_of_string s1 ++ String.list_ascii_of_string s2.
Proof.
  induction s1 as [|a s1 IH]; simpl; [reflexivity | now f_equal].
Qed.

Lemma length_list_ascii_of_string (s : string) :
  length (String.list_ascii_of_string s) = String.length s.
Proof.
  induction s as [|a s IH]; simpl; [reflexivity | now f_equal].
Qed.

Lemma list_ascii_of_string_inj (s1 s2 : string) :
  String.list_ascii_of_string s1 = String.list_ascii_of_string s2 -> s1 = s2.
Proof.
  intros H. apply (f_equal String.string_of_list_ascii) in H.
  now rewrite !String.string_of_list_ascii_of_string in H.
Qed.

Lemma setup_checks_never_raise_witness :
  (length (@nil candle) < 200)%nat
  /\ check_buy_setup "BTCUSDT" [] "2024-01-01 00:00:00"
     = Some (NoData "Dados insuficientes")
  /\ exists e,
       check_sell_setup "BTCUSDT" falling_frame "2024-01-01 00:00:00"
       = Some (Evaluated e).
Proof.
  assert (Hshort : (length (@nil candle) < 200)%nat) by (cbn; lia).
  split; [exact Hshort|]. split.
  - destruct (setup_checks_never_raise "BTCUSDT" [] "2024-01-01 00:00:00")
      as (b & s & Hb & _ & Hiff & _).
    rewrite Hb. f_equal. now apply Hiff.
  - destruct (setup_checks_never_raise "BTCUSDT" falling_frame
                "2024-01-01 00:00:00") as (b & s & _ & Hs & _ & Hiff).
    destruct s as [reason|e]; [|eauto].
    assert (Hlen : (length falling_frame < 200)%nat).
    { apply Hiff. apply (f_equal evaluation_of) in Hs. vm_compute in Hs.
      discriminate. }
    vm_compute in Hlen. lia.
Defined.

(** X11. Alert keys do not collide: for hour stamps of equal length (the
    format [%Y%m%d%H] gives ten digits) two keys are equal only if the
    symbol, the direction and the hour are equal, also when a symbol
    itself contains [_BUY] or [_SELL]. *)
Theorem alert_key_injective
    (s1 s2 : string) (d1 d2 : direction) (h1 h2 : string) :
  String.length h1 = String.length h2 ->
  alert_key s1 (tag d1) h1 = alert_key s2 (tag d2) h2 ->
  s1 = s2 /\ d1 = d2 /\ h1 = h2.
Proof.
  intros Hlen Hkey. unfold alert_key in Hkey.
  apply (f_equal String.list_ascii_of_string) in Hkey.
  rewrite !list_ascii_of_string_app, !app_assoc in Hkey.
  apply app_inj_2 in Hkey as [Hst Hh];
    [|now rewrite !length_list_ascii_of_string].
  apply list_ascii_of_string_inj in Hh.
  destruct d1, d2; cbn [tag] in Hst.
  - apply app_inj_2 in Hst as [Hs _]; [|reflexivity].
    apply list_ascii_of_string_inj in Hs. auto.
  - exfalso.
    change (String.list_ascii_of_string "_BUY_")
      with (String.list_ascii_of_string "_BU"
            ++ String.list_ascii_of_string "Y_") in Hst.
    change (String.list_ascii_of_string "_SELL_")
      with (String.list_ascii_of_string "_SEL"
            ++ String.list_ascii_of_string "L_") in Hst.
    rewrite !app_assoc in Hst.
    apply app_inj_2 in Hst as [_ Hend]; [discriminate | reflexivity].
  - exfalso.
    change (String.list_ascii_of_string "_BUY_")
      with (String.list_ascii_of_string "_BU"
            ++ String.list_ascii_of_string "Y_") in Hst.
    change (String.list_ascii_of_string "_SELL_")
      with (String.list_ascii_of_string "_SEL"
            ++ String.list_ascii_of_string "L_") in Hst.
    rewrite !app_assoc in Hst.
    apply app_inj_2 in Hst as [_ Hend]; [discriminate | reflexivity].
  - apply app_inj_2 in Hst as [Hs _]; [|reflexivity].
    apply list_ascii_of_string_inj in Hs. auto.
Qed.

Lemma alert_key_injective_witness :
  String.length "2024010112" = String.length "2024010112"
  /\ alert_key "BTCUSDT" (tag BUY) "2024010112" = "BTCUSDT_BUY_2024010112"
  /\ alert_key "BTC" (tag BUY) "2024010112"
     <> alert_key "BTC_BUY" (tag SELL) "2024010112".
Proof.
  split; [reflexivity|]. split; [reflexivity|].
  intros H.
  destruct (alert_key_injective "BTC" "BTC_BUY" BUY SELL
              "2024010112" "2024010112" eq_refl H) as (Hs & _).
  discriminate Hs.
Defined.

Lemma alerts_sent_refl (fired : string -> Prop) (st : state) :
  alerts_sent fired st st [].
Proof.
  unfold alerts_sent. rewrite app_nil_r. cbn [length].
  repeat split; try lia; auto.
Qed.

Lemma alerts_sent_trans (f1 f2 fired : string -> Prop) (st st1 st2 : state)
    (n1 n2 : list sent) :
  (forall k, f1 k -> fired k) -> (forall k, f2 k -> fired k) ->
  alerts_sent f1 st st1 n1 -> alerts_sent f2 st1 st2 n2 ->
  alerts_sent fired st st2 (n1 ++ n2).
Proof.
  intros H1 H2 (O1 & S1 & M1 & F1) (O2 & S2 & M2 & F2).
  unfold alerts_sent. rewrite O2, O1, app_assoc, S2, S1, length_app.
  split; [reflexivity|]. split; [lia|]. split; [auto|].
  apply Forall_app. split.
  - eapply Forall_impl; [exact F1|].
    intros e (k & Hk & Hf & Hn & Hs). exists k. auto.
  - eapply Forall_impl; [exact F2|].
    intros e (k & Hk & Hf & Hn & Hs). exists k.
    repeat split; auto.
    destruct (last_alerts st !! k) as [b|] eqn:E; [|reflexivity].
    apply M1 in E. congruence.
Qed.

Section ScanLoop.

Variable format_telegram_alert : setup -> string -> string.
Variable error_msg : string.
Variable post : string -> delivery.

Local Abbreviation once := (alert_once format_telegram_alert post).
Local Abbreviation scan := (scan_symbols format_telegram_alert post).
Local Abbreviation pass := (monitor_pass format_telegram_alert error_msg post).
Local Abbreviation run := (monitor format_telegram_alert error_msg post).

Lemma alert_once_alerts_sent (s : setup) (trade_type key : string)
    (st : state) :
  exists new,
    alerts_sent (fun k => signal s = true /\ k = key)
                st (once s trade_type key st) new.
Proof.
  destruct (alert_once_cases format_telegram_alert post s trade_type key st)
    as [(Hs & Hn & ->)|(_ & ->)].
  - eexists. unfold alerts_sent. cbn [last_alerts outbox].
    split; [reflexivity|].
    rewrite map_size_insert_None by exact Hn. cbn [length].
    split; [lia|]. split.
    + intros k b Hk. destruct (decide (key = k)) as [->|Hne]; [congruence|].
      now rewrite lookup_insert_ne.
    + repeat constructor. exists key. cbn [sent_key].
      rewrite lookup_insert_eq. auto.
  - exists []. apply alerts_sent_refl.
Qed.

Lemma scan_symbols_alerts_sent (visits : list visit) (st : state) :
  exists st' new,
    scan visits st = Completed st'
    /\ alerts_sent (fired_keys visits) st st' new.
Proof.
  revert st. induction visits as [|v rest IH]; intros st.
  - exists st, []. split; [reflexivity | apply alerts_sent_refl].
  - destruct (visit_symbol_completed format_telegram_alert post v st)
      as (b & s & Hb & Hs & Hv).
    destruct (alert_once_alerts_sent b "COMPRA" (key_of BUY v) st)
      as (n1 & A1).
    destruct (alert_once_alerts_sent s "VENDA" (key_of SELL v)
                (once b "COMPRA" (key_of BUY v) st)) as (n2 & A2).
    destruct (IH (once s "VENDA" (key_of SELL v)
                    (once b "COMPRA" (key_of BUY v) st)))
      as (st' & n3 & Hr & A3).
    exists st', ((n1 ++ n2) ++ n3). cbn [scan_symbols]. rewrite Hv.
    split; [exact Hr|].
    assert (A12 : alerts_sent (fired_keys (v :: rest)) st
                    (once s "VENDA" (key_of SELL v)
                       (once b "COMPRA" (key_of BUY v) st)) (n1 ++ n2)).
    { eapply (alerts_sent_trans
                (fun k => signal b = true /\ k = key_of BUY v)
                (fun k => signal s = true /\ k = key_of SELL v)
                (fired_keys (v :: rest)));
        [| |exact A1|exact A2].
      - intros k [Hsig ->]. exists v, BUY. split; [now left|].
        split; [|reflexivity]. unfold fires. now rewrite Hb.
      - intros k [Hsig ->]. exists v, SELL. split; [now left|].
        split; [|reflexivity]. unfold fires. now rewrite Hs. }
    eapply (alerts_sent_trans (fired_keys (v :: rest)) (fired_keys rest)
              (fired_keys (v :: rest)));
      [auto| |exact A12|exact A3].
    intros k (v' & d & Hin & Hf & Hk). exists v', d.
    split; [now right | auto].
Qed.

(** X12. A pass over the symbols never raises, and the messages it hands
    over are exactly as many as the keys it adds to the cache; each of
    them is sent for a setup that fired during a visit of the pass, under
    that setup's key, which was not recorded before the pass and is
    recorded after it. *)
Theorem alerts_only_for_fired_setups (visits : list visit) (st : state) :
  exists st' new,
    scan visits st = Completed st'
    /\ outbox st' = outbox st ++ new
    /\ size (last_alerts st') = (size (last_alerts st) + length new)%nat
    /\ Forall (fun e => exists v d,
                   In v visits /\ fires d v = true
                   /\ sent_key e = Some (key_of d v)
                   /\ last_alerts st !! key_of d v = None
                   /\ last_alerts st' !! key_of d v = Some true) new.
Proof.
  destruct (scan_symbols_alerts_sent visits st)
    as (st' & new & Hs & Ho & Hsize & _ & Hnew).
  exists st', new. repeat split; try assumption.
  eapply Forall_impl; [exact Hnew|].
  intros e (k & Hk & (v & d & Hin & Hf & <-) & Hn & Hsome).
  exists v, d. auto.
Qed.

Lemma alert_once_size_upper (s : setup) (trade_type key : string) (st : state) :
  (size (last_alerts (once s trade_type key st))
   <= S (size (last_alerts st)))%nat.
Proof.
  destruct (alert_once_cases format_telegram_alert post s trade_type key st)
    as [(_ & Hn & ->)|(_ & ->)]; [|lia].
  cbn [last_alerts]. rewrite map_size_insert_None by exact Hn. lia.
Qed.

Lemma scan_symbols_size_upper (visits : list visit) (st : state) :
  exists st',
    scan visits st = Completed st'
    /\ (size (last_alerts st')
        <= size (last_alerts st) + 2 * length visits)%nat.
Proof.
  revert st. induction visits as [|v rest IH]; intros st.
  - exists st. split; [reflexivity | cbn; lia].
  - destruct (visit_symbol_completed format_telegram_alert post v st)
      as (b & s & _ & _ & Hv).
    cbn [scan_symbols]. rewrite Hv.
    destruct (IH (once s "VENDA" (key_of SELL v)
                    (once b "COMPRA" (key_of BUY v) st)))
      as (st' & Hr & Hsize).
    exists st'. split; [exact Hr|].
    pose proof (alert_once_size_upper b "COMPRA" (key_of BUY v) st).
    pose proof (alert_once_size_upper s "VENDA" (key_of SELL v)
                  (once b "COMPRA" (key_of BUY v) st)).
    cbn [length]. lia.
Qed.

Lemma monitor_pass_size (visits : list visit) (st : state) :
  (size (last_alerts (pass visits st)) <= 100)%nat.
Proof.
  destruct (scan_symbols_size format_telegram_alert post visits st)
    as (st' & Hs & _).
  unfold monitor_pass. rewrite Hs.
  destruct (Nat.ltb_spec 100 (size (last_alerts st'))); [|assumption].
  cbn [last_alerts]. rewrite map_size_empty. lia.
Qed.

Lemma monitor_size (passes : list (list visit)) (st : state) :
  (size (last_alerts st) <= 100)%nat ->
  (size (last_alerts (run passes st)) <= 100)%nat.
Proof.
  revert st. induction passes as [|visits rest IH]; intros st Hst.
  - exact Hst.
  - unfold monitor. cbn [foldl]. apply IH, monitor_pass_size.
Qed.

(** X13. Starting from a cache of at most 100 keys, the cache holds at
    most 100 keys after every turn of the loop, and during a pass over
    [n] symbols it never holds more than 100 + 2 n keys. *)
Theorem cache_size_bounded
    (passes : list (list visit)) (visits : list visit) (st : state) :
  (size (last_alerts st) <= 100)%nat ->
  (size (last_alerts (run passes st)) <= 100)%nat
  /\ exists st1,
       scan visits (run passes st) = Completed st1
       /\ (size (last_alerts st1) <= 100 + 2 * length visits)%nat.
Proof.
  intros Hst. pose proof (monitor_size passes st Hst) as Hrun.
  split; [exact Hrun|].
  destruct (scan_symbols_size_upper visits (run passes st))
    as (st1 & Hs & Hsize).
  exists st1. split; [exact Hs | lia].
Qed.

Lemma scan_without_new_keys (visits : list visit) (st : state) :
  (forall v d, In v visits -> fires d v = true ->
               is_Some (last_alerts st !! key_of d v)) ->
  scan visits st = Completed st.
Proof.
  induction visits as [|v rest IH]; intros Hrec; [reflexivity|].
  destruct (visit_symbol_completed format_telegram_alert post v st)
    as (b & s & Hb & Hs & Hv).
  assert (E1 : once b "COMPRA" (key_of BUY v) st = st).
  { destruct (alert_once_cases format_telegram_alert post b "COMPRA"
                (key_of BUY v) st) as [(Hsig & Hn & _)|(_ & E)]; [|exact E].
    destruct (Hrec v BUY) as [x Hx]; [now left | |congruence].
    unfold fires. now rewrite Hb. }
  assert (E2 : once s "VENDA" (key_of SELL v) st = st).
  { destruct (alert_once_cases format_telegram_alert post s "VENDA"
                (key_of SELL v) st) as [(Hsig & Hn & _)|(_ & E)]; [|exact E].
    destruct (Hrec v SELL) as [x Hx]; [now left | |congruence].
    unfold fires. now rewrite Hs. }
  cbn [scan_symbols]. rewrite Hv, E1, E2.
  apply IH. intros v' d Hin. apply Hrec. now right.
Qed.

(** X14. Scanning the same visits a second time (same frames, same
    clock readings, no reset in between) hands over no message and leaves
    the cache as it is. *)
Theorem rescan_sends_nothing (visits : list visit) (st : state) :
  exists st1,
    scan visits st = Completed st1
    /\ scan visits st1 = Completed st1.
Proof.
  destruct (scan_symbols_size format_telegram_alert post visits st)
    as (st1 & Hs & _).
  exists st1. split; [exact Hs|].
  apply scan_without_new_keys. intros v d Hin Hf.
  destruct (scan_symbols_tracked format_telegram_alert post
              (key_of d v) visits st) as (st1' & Hs' & T1 & T2).
  rewrite Hs in Hs'. injection Hs' as <-.
  destruct (last_alerts st !! key_of d v) as [b|] eqn:E.
  - destruct (T1 b eq_refl) as [-> _]. eauto.
  - specialize (T2 eq_refl).
    assert (Hex : existsb (fires_key (key_of d v)) visits = true).
    { apply existsb_exists. exists v. split; [exact Hin|].
      unfold fires_key. apply orb_true_iff.
      destruct d; [left | right]; rewrite Hf;
        now rewrite bool_decide_eq_true_2 by reflexivity. }
    rewrite Hex in T2. destruct T2 as [-> _]. eauto.
Qed.

(** X15. A pass in which every fetch returns fewer than 200 candles (a
    failed fetch returns the empty frame) hands over no message and
    records no key. *)
Theorem short_frames_send_nothing (visits : list visit) (st : state) :
  Forall (fun v => (length (buy_klines v) < 200)%nat
                   /\ (length (sell_klines v) < 200)%nat) visits ->
  scan visits st = Completed st
  /\ outbox (pass visits st) = outbox st.
Proof.
  intros Hshort.
  assert (Hs : scan visits st = Completed st).
  { apply scan_without_new_keys. intros v d Hin Hf. exfalso.
    rewrite Forall_forall in Hshort.
    destruct (Hshort v (proj2 (list_elem_of_In _ _) Hin)) as [Hb Hsell].
    revert Hf. unfold fires, setup_of, check_buy_setup, check_sell_setup.
    destruct d; [rewrite (short_frame _ Hb) | rewrite (short_frame _ Hsell)];
      discriminate. }
  split; [exact Hs|]. unfold monitor_pass. rewrite Hs.
  now destruct (100 <? size (last_alerts st))%nat.
Qed.

End ScanLoop.

Lemma cache_size_bounded_witness :
  (size (last_alerts initial_state) <= 100)%nat
  /\ (size (last_alerts
              (monitor plain_format "error" always_delivered
                 [bullish_pass "2024010100"] initial_state)) <= 100)%nat.
Proof.
  assert (H : (size (last_alerts initial_state) <= 100)%nat)
    by (vm_compute; lia).
  split; [exact H|].
  apply (cache_size_bounded plain_format "error" always_delivered
           [bullish_pass "2024010100"] [] initial_state H).
Defined.

Lemma short_frames_send_nothing_witness :
  Forall (fun v => (length (buy_klines v) < 200)%nat
                   /\ (length (sell_klines v) < 200)%nat)
         [Visit "BTCUSDT" [] "2024-01-01 00:00:00" "2024010100"
                [] "2024-01-01 00:00:00" "2024010100"]
  /\ scan_symbols plain_format always_delivered
       [Visit "BTCUSDT" [] "2024-01-01 00:00:00" "2024010100"
              [] "2024-01-01 00:00:00" "2024010100"] initial_state
     = Completed initial_state.
Proof.
  assert (H : Forall (fun v => (length (buy_klines v) < 200)%nat
                               /\ (length (sell_klines v) < 200)%nat)
                [Visit "BTCUSDT" [] "2024-01-01 00:00:00" "2024010100"
                       [] "2024-01-01 00:00:00" "2024010100"]).
  { repeat constructor; cbn; lia. }
  split; [exact H|].
  apply (short_frames_send_nothing plain_format "error" always_delivered
           _ initial_state H).
Defined.

(** X16. Every value of the RSI column is either NaN or a number
    between 0 and 100; it is never infinite. *)
Theorem rsi_is_nan_or_percentage (df : list candle) :
  Forall (fun r => r = NaN \/ exists q, r = Fin q /\ 0 <= q /\ q <= 100)
         (calculate_rsi df 14).
Proof.
  apply Forall_lookup. intros i r Hr.
  assert (Hi : (i < length df)%nat).
  { apply lookup_lt_Some in Hr. now rewrite length_calculate_rsi in Hr. }
  rewrite calculate_rsi_lookup in Hr by exact Hi.
  apply (inj Some) in Hr.
  destruct (Nat.ltb_spec (i + 1) 14) as [_|Hge]; [now left|].
  assert (H13 : (13 <= i)%nat) by lia.
  pose proof (gain_window_nonneg df i H13) as Hg.
  pose proof (loss_window_nonneg df i H13) as Hl.
  pose proof (rsi_formula _ _ Hg Hl) as (Hfall & Hrise & Hnone).
  rewrite <- Hr.
  destruct (Qlt_le_dec 0 (qsum (take 14 (drop (i + 1 - 14)
                                           (losses (map close df))))))
    as [Hpos|Hle].
  - right. destruct (Hfall Hpos) as (q & -> & Hq0 & Hq1).
    exists q. split; [reflexivity|]. split; lra.
  - destruct (Qlt_le_dec 0 (qsum (take 14 (drop (i + 1 - 14)
                                             (gains (map close df))))))
      as [Hgpos|Hgle].
    + right. destruct Hrise as (q & -> & Hq); [lra | exact Hgpos|].
      exists q. split; [reflexivity|]. split; lra.
    + left. apply Hnone; lra.
Qed.
